(** * MiniVecDB: vector storage and inverted-file index

    A shallow embedding of the exported cells of [00_vector_storage.ipynb]
    ([VectorStorage]) and [01_ivf_index.ipynb] (distance functions,
    [run_kmeans], [build_index], [IVFIndex]).

    - Python [int] is [Z]; [float]/[np.float64] is Rocq's primitive binary64
      [float]; a NumPy vector is a [list float] (a one-dimensional float64
      array).  Operations on two arrays raise where NumPy does when the
      shapes do not fit.
    - A Python [dict] is an insertion-ordered association list with unique
      keys ([Py.dict]); [defaultdict(list)] adds the insert-on-read lookup.
    - Methods that mutate [self] take the object and return the outcome
      (a value or the raised exception) together with the object afterwards.
      [IVFIndex] holds its [storage] by reference: the record embeds the one
      store object, so a rebuild sees every mutation of it.
    - [fastcore]'s [L] is a [list]; the few [L] methods the code calls are
      modelled in [Fastcore].
    - The clustering library ([FastKMeans]) is a parameter of the index. *)

From Stdlib Require Import ZArith String Ascii Bool Lia Floats.
From Stdlib Require Import DecimalString DecimalPos DecimalZ.
From Stdlib Require Import List Permutation Sorted.
Import ListNotations.

Local Open Scope string_scope.
Local Open Scope list_scope.
Local Open Scope Z_scope.

#[local] Set Warnings "-register-all,-inexact-float".

(* ================================================================== *)
(** * The Python runtime the code relies on *)

Module Py.

(** The exceptions the modelled code can raise. *)
Inductive exn : Type :=
| KeyError
| ValueError (msg : string)
| AssertionError
| ZeroDivisionError
| TypeError
| FileNotFoundError.

(** A call either returns a value or raises. *)
Inductive outcome (A : Type) : Type :=
| Return (a : A)
| Raise (e : exn).
Arguments Return {A} a.
Arguments Raise {A} e.

Definition bind {A B} (c : outcome A) (k : A -> outcome B) : outcome B :=
  match c with
  | Return a => k a
  | Raise e => Raise e
  end.

Declare Scope py_scope.
Delimit Scope py_scope with py.
Notation "x <- c ;; k" := (bind c (fun x => k))
  (at level 61, c at next level, right associativity) : py_scope.
Notation "' p <- c ;; k" := (bind c (fun x => let p := x in k))
  (at level 61, p pattern, c at next level, right associativity) : py_scope.

(** A comprehension whose body may raise: stops at the first exception. *)
Fixpoint mapM {A B} (f : A -> outcome B) (l : list A) : outcome (list B) :=
  match l with
  | [] => Return []
  | x :: l' =>
      match f x with
      | Raise e => Raise e
      | Return y =>
          match mapM f l' with
          | Raise e => Raise e
          | Return ys => Return (y :: ys)
          end
      end
  end.

(** [len(l)] *)
Definition len {A} (l : list A) : Z := Z.of_nat (length l).

(** [l[:n]]; a negative bound counts from the end. *)
Definition slice_to {A} (n : Z) (l : list A) : list A :=
  if n <? 0 then firstn (length l - Z.to_nat (- n)) l
  else firstn (Z.to_nat n) l.

(** [l[n:]] *)
Definition slice_from {A} (n : Z) (l : list A) : list A :=
  if n <? 0 then skipn (length l - Z.to_nat (- n)) l
  else skipn (Z.to_nat n) l.

(** [sum], [min], [max], [list.count] on lists of integers. *)
Definition sum (l : list Z) : Z := fold_left Z.add l 0.

Definition py_min (l : list Z) : outcome Z :=
  match l with
  | [] => Raise (ValueError "min() arg is an empty sequence")
  | x :: l' => Return (fold_left Z.min l' x)
  end.

Definition py_max (l : list Z) : outcome Z :=
  match l with
  | [] => Raise (ValueError "max() arg is an empty sequence")
  | x :: l' => Return (fold_left Z.max l' x)
  end.

Definition count (x : Z) (l : list Z) : Z :=
  len (filter (Z.eqb x) l).

(** [str(k)] of an integer. *)
Definition str (k : Z) : string := NilZero.string_of_int (Z.to_int k).

(** [int(s)], base 10, on a string of ASCII characters: blanks around the
    literal are dropped, then comes an optional sign, then digits, where
    single underscores may stand between two digits.  (The message of
    the [ValueError] is cut before the quoted literal.) *)
Definition is_space (c : ascii) : bool :=
  let n := nat_of_ascii c in
  ((9 <=? n) && (n <=? 13) || (28 <=? n) && (n <=? 32))%nat.

Definition is_digit (c : ascii) : bool :=
  let n := nat_of_ascii c in ((48 <=? n) && (n <=? 57))%nat.

Fixpoint lstrip (s : string) : string :=
  match s with
  | EmptyString => EmptyString
  | String c s' => if is_space c then lstrip s' else s
  end.

Fixpoint rstrip (s : string) : string :=
  match s with
  | EmptyString => EmptyString
  | String c s' =>
      match rstrip s' with
      | EmptyString => if is_space c then EmptyString else String c EmptyString
      | r => String c r
      end
  end.

Definition strip (s : string) : string := rstrip (lstrip s).

(** The digits of a literal without its underscores; [after_digit] tells
    whether the character before was a digit. *)
Fixpoint digits_of (after_digit : bool) (s : string) : option string :=
  match s with
  | EmptyString => if after_digit then Some EmptyString else None
  | String c s' =>
      if Ascii.eqb c "_"
      then if after_digit then digits_of false s' else None
      else if is_digit c then option_map (String c) (digits_of true s')
           else None
  end.

Definition int_literal (negative : bool) (s : string) : outcome Z :=
  match digits_of false s with
  | Some digits =>
      match NilEmpty.uint_of_string digits with
      | Some d =>
          Return (Z.of_int (if negative then Decimal.Neg d else Decimal.Pos d))
      | None => Raise (ValueError "invalid literal for int() with base 10")
      end
  | None => Raise (ValueError "invalid literal for int() with base 10")
  end.

Definition int (s : string) : outcome Z :=
  match strip s with
  | String c s' =>
      if Ascii.eqb c "-" then int_literal true s'
      else if Ascii.eqb c "+" then int_literal false s'
      else int_literal false (String c s')
  | EmptyString => Raise (ValueError "invalid literal for int() with base 10")
  end.

(** The conversion of an integer to a float, as in [a / b] on two ints
    (exact below 2^53, which every list size is). *)
Definition float_of_Z (z : Z) : float :=
  if z <? 0 then PrimFloat.opp (PrimFloat.of_uint63 (Uint63.of_Z (- z)))
  else PrimFloat.of_uint63 (Uint63.of_Z z).

(** [a / b] on integers: true division. *)
Definition truediv (a b : Z) : outcome float :=
  if b =? 0 then Raise ZeroDivisionError
  else Return (PrimFloat.div (float_of_Z a) (float_of_Z b)).

(** ** Dictionaries *)

Class Hashable (K : Type) : Type := {
  key_eqb : K -> K -> bool;
  key_eqb_eq : forall a b, key_eqb a b = true <-> a = b
}.

#[export] Instance Z_Hashable : Hashable Z :=
  {| key_eqb := Z.eqb; key_eqb_eq := Z.eqb_eq |}.

#[export] Instance string_Hashable : Hashable string :=
  {| key_eqb := String.eqb; key_eqb_eq := String.eqb_eq |}.

(** Entries in insertion order; a Python dict never holds a key twice
    ([dict_wf]). *)
Definition dict (K V : Type) : Type := list (K * V).

Section Dict.
Context {K V : Type} `{Hashable K}.

Definition keys (d : dict K V) : list K := map fst d.
Definition values (d : dict K V) : list V := map snd d.
Definition dict_wf (d : dict K V) : Prop := NoDup (keys d).

(** [d.get(k)]: [None] when absent. *)
Fixpoint dict_get (d : dict K V) (k : K) : option V :=
  match d with
  | [] => None
  | (k', v) :: d' => if key_eqb k' k then Some v else dict_get d' k
  end.

(** [k in d] *)
Definition dict_in (k : K) (d : dict K V) : bool :=
  match dict_get d k with Some _ => true | None => false end.

(** [d[k]] *)
Definition getitem (d : dict K V) (k : K) : outcome V :=
  match dict_get d k with
  | Some v => Return v
  | None => Raise KeyError
  end.

(** [d[k] = v]: overwrites in place, or appends a new entry. *)
Fixpoint dict_set (d : dict K V) (k : K) (v : V) : dict K V :=
  match d with
  | [] => [(k, v)]
  | (k', v') :: d' =>
      if key_eqb k' k then (k', v) :: d' else (k', v') :: dict_set d' k v
  end.

(** [d.pop(k)]: the removed value and the dict without the entry. *)
Fixpoint dict_remove (d : dict K V) (k : K) : dict K V :=
  match d with
  | [] => []
  | (k', v) :: d' =>
      if key_eqb k' k then d' else (k', v) :: dict_remove d' k
  end.

Definition pop (d : dict K V) (k : K) : outcome V * dict K V :=
  match dict_get d k with
  | Some v => (Return v, dict_remove d k)
  | None => (Raise KeyError, d)
  end.

(** A dict comprehension [{k: v for k, v in items}]. *)
Definition dict_of_items (items : list (K * V)) : dict K V :=
  fold_left (fun d kv => dict_set d (fst kv) (snd kv)) items [].

End Dict.

(** ** Sorting

    [list.sort] and [sorted] compare with [<] only and are stable.  The
    model is the stable insertion sort, which is what they compute whenever
    [<] orders the elements consistently (no NaN among float keys). *)
Section Sorting.
Context {A : Type} (lt : A -> A -> bool).

Fixpoint insert (x : A) (l : list A) : list A :=
  match l with
  | [] => [x]
  | y :: l' => if lt y x then y :: insert x l' else x :: y :: l'
  end.

Definition sorted (l : list A) : list A := fold_right insert [] l.

End Sorting.

(** [sorted(l, key=key)] with float keys: the key of every element is
    computed first, in list order, and a call that raises ends the sort;
    the elements are then ordered by their keys alone. *)
Definition sorted_key {A} (key : A -> outcome float) (l : list A)
  : outcome (list A) :=
  (ks <- mapM key l ;;
   Return (map snd (sorted (fun a b => PrimFloat.ltb (fst a) (fst b))
                           (combine ks l))))%py.

(** The same for a key function that cannot raise. *)
Definition sorted_by {A} (key : A -> float) (l : list A) : list A :=
  sorted (fun a b => PrimFloat.ltb (key a) (key b)) l.

(** [<] on (float, int) tuples: the first components decide unless they
    are [==]. *)
Definition tuple_lt (a b : float * Z) : bool :=
  if PrimFloat.eqb (fst a) (fst b) then snd a <? snd b
  else PrimFloat.ltb (fst a) (fst b).

End Py.

Import Py.
Local Open Scope py_scope.

(* ================================================================== *)
(** * JSON documents, NumPy vectors, fastcore lists *)

(** What [json.dumps] writes and [json.loads] reads back.  Metadata is any
    such document; a file's content is the document itself (the text layer
    is not modelled). *)
Inductive json : Type :=
| JNull
| JBool (b : bool)
| JInt (n : Z)
| JFloat (x : float)
| JStr (s : string)
| JArr (items : list json)
| JObj (fields : list (string * json)).

(** [data[name]] on a parsed document. *)
Definition field (data : json) (name : string) : outcome json :=
  match data with
  | JObj fields => getitem fields name
  | _ => Raise TypeError
  end.

(** [data.items()] *)
Definition items (data : json) : outcome (list (string * json)) :=
  match data with
  | JObj fields => Return fields
  | _ => Raise TypeError
  end.

(** A field that the store keeps as an integer.  The code stores whatever
    the document holds; a document with another kind of value there is
    outside the model, and gets the outcome [TypeError]. *)
Definition as_int (data : json) : outcome Z :=
  match data with
  | JInt n => Return n
  | _ => Raise TypeError
  end.

(** A one-dimensional float array. *)
Definition vector : Type := list float.

Module Np.

(** The sum of the products of two vectors of one length.  Every product
    and every sum is rounded to binary64, from the first component on; a
    BLAS kernel may fuse or reorder these roundings, which can change the
    last bits of the result and nothing else. *)
Definition inner (a b : vector) : float :=
  fold_left (fun acc p => (acc + fst p * snd p)%float) (combine a b) 0%float.

Definition shape (a : vector) : string := ("(" ++ str (len a) ++ ",)")%string.

(** [np.dot(a, b)]: two one-dimensional arrays must have one length. *)
Definition dot (a b : vector) : outcome float :=
  if len a =? len b then Return (inner a b)
  else Raise (ValueError ("shapes " ++ shape a ++ " and " ++ shape b
                          ++ " not aligned: " ++ str (len a) ++ " (dim 0) != "
                          ++ str (len b) ++ " (dim 0)")%string).

(** [np.linalg.norm(a)]: [sqrt(a.dot(a))] *)
Definition norm (a : vector) : float := PrimFloat.sqrt (inner a a).

(** [a - b]: componentwise on two arrays of one length; an array of
    length 1 is broadcast against the other; any other pair of lengths
    raises. *)
Definition sub (a b : vector) : outcome vector :=
  if len a =? len b
  then Return (map (fun p => (fst p - snd p)%float) (combine a b))
  else match a, b with
       | [x], _ => Return (map (fun y => (x - y)%float) b)
       | _, [y] => Return (map (fun x => (x - y)%float) a)
       | _, _ =>
           Raise (ValueError ("operands could not be broadcast together "
                              ++ "with shapes " ++ shape a ++ " " ++ shape b
                              ++ " ")%string)
       end.

(** [v.tolist()] *)
Definition tolist (v : vector) : json := JArr (map JFloat v).

(** [np.array(v)] for a list of numbers; an integer among them becomes
    the float of that value (below 2^63 in magnitude).  A list of anything else makes an array that
    is not a float vector: such a document is outside the model, and
    [array] is given the outcome [TypeError] for it. *)
Definition array (v : json) : outcome vector :=
  match v with
  | JArr items =>
      mapM (fun x => match x with
                     | JFloat f => Return f
                     | JInt n => Return (float_of_Z n)
                     | _ => Raise TypeError
                     end)
           items
  | _ => Raise TypeError
  end.

End Np.

Module Fastcore.

(** [L.enumerate] *)
Definition enumerate {A} (l : list A) : list (Z * A) :=
  combine (map Z.of_nat (seq 0 (length l))) l.

(** [cycle(o)]: the list that is gone through again and again, which is
    [[None]] for an empty [o]. *)
Definition cycle {B} (none : B) (o : list B) : list B :=
  match o with
  | [] => [none]
  | _ :: _ => o
  end.

(** [zip_cycle(x, y)]: [zip(x, cycle(y))]. *)
Definition zip_cycle {A B} (none : B) (x : list A) (y : list B)
  : list (A * B) :=
  let c := cycle none y in
  map (fun p => (snd p, nth (Nat.modulo (fst p) (length c)) c none))
      (combine (seq 0 (length x)) x).

(** A Python object handed to a parameter that is used as a flag. *)
Inductive pyobj (F : Type) : Type :=
| PyBool (b : bool)
| PyFunction (f : F).
Arguments PyBool {F} b.
Arguments PyFunction {F} f.

Definition truthy {F} (o : pyobj F) : bool :=
  match o with
  | PyBool b => b
  | PyFunction _ => true
  end.

(** [L.zip(self, cycled=False)], on an [L] of two lists:
    [return self._new((zip_cycle if cycled else zip)( *self))]. *)
Definition L_zip {A B F} (none : B) (self : list A * list B)
  (cycled : pyobj F) : list (A * B) :=
  if truthy cycled then zip_cycle none (fst self) (snd self)
  else combine (fst self) (snd self).

End Fastcore.

(* ================================================================== *)
(** * [VectorStorage] *)

Record VectorStorage : Type := {
  dimension : Z;
  vectors : dict Z vector;      (* id -> vector *)
  metadatas : dict Z json;      (* id -> metadata *)
  next_id : Z
}.

Definition VectorStorage_init (dimension : Z) : VectorStorage :=
  {| dimension := dimension; vectors := []; metadatas := []; next_id := 0 |}.

(** [fc.test_eq] raises [AssertionError] on a length mismatch. *)
Definition add (vector : vector) (metadata : json) (self : VectorStorage)
  : outcome Z * VectorStorage :=
  if negb (dimension self =? len vector) then (Raise AssertionError, self)
  else
    let current_id := next_id self in
    (Return current_id,
     {| dimension := dimension self;
        vectors := dict_set (vectors self) current_id vector;
        metadatas := dict_set (metadatas self) current_id metadata;
        next_id := next_id self + 1 |}).

Definition get (id : Z) (self : VectorStorage) : outcome (vector * json) :=
  v <- getitem (vectors self) id ;;
  m <- getitem (metadatas self) id ;;
  Return (v, m).

Definition delete (id : Z) (self : VectorStorage)
  : outcome bool * VectorStorage :=
  if negb (dict_in id (vectors self)) then (Return false, self)
  else
    let vectors' := dict_remove (vectors self) id in
    let '(popped, metadatas') := pop (metadatas self) id in
    let self' := {| dimension := dimension self;
                    vectors := vectors';
                    metadatas := metadatas';
                    next_id := next_id self |} in
    match popped with
    | Return _ => (Return true, self')
    | Raise e => (Raise e, self')
    end.

Definition get_all (self : VectorStorage)
  : outcome (list (Z * vector * json)) :=
  mapM (fun key =>
          v <- getitem (vectors self) key ;;
          m <- getitem (metadatas self) key ;;
          Return (key, v, m))
       (keys (vectors self)).

(** The files on disk: path -> content. *)
Definition filesystem : Type := dict string json.

(** The [data] dict of [save] as [fc.dumps] writes it: JSON object keys are
    strings, so the integer keys of [metadatas] are written as [str(k)]
    too. *)
Definition save_data (self : VectorStorage) : json :=
  JObj [("dimension", JInt (dimension self));
        ("next_id", JInt (next_id self));
        ("vectors",
         JObj (map (fun kv => (str (fst kv), Np.tolist (snd kv)))
                   (vectors self)));
        ("metadatas",
         JObj (map (fun kv => (str (fst kv), snd kv)) (metadatas self)))].

Definition save (filepath : string) (self : VectorStorage) (fs : filesystem)
  : filesystem :=
  dict_set fs filepath (save_data self).

Definition load (filepath : string) (fs : filesystem)
  : outcome VectorStorage :=
  match dict_get fs filepath with
  | None => Raise FileNotFoundError
  | Some data =>
      dim <- (d <- field data "dimension" ;; as_int d) ;;
      nid <- (n <- field data "next_id" ;; as_int n) ;;
      vs <- (v <- field data "vectors" ;; items v) ;;
      vecs <- mapM (fun kv => k <- int (fst kv) ;;
                              v <- Np.array (snd kv) ;;
                              Return (k, v)) vs ;;
      ms <- (m <- field data "metadatas" ;; items m) ;;
      metas <- mapM (fun kv => k <- int (fst kv) ;; Return (k, snd kv)) ms ;;
      Return {| dimension := dim;
                vectors := dict_of_items vecs;
                metadatas := dict_of_items metas;
                next_id := nid |}
  end.

(* ================================================================== *)
(** * Distance functions *)

(** 1 - cosine *)
Definition vers (a b : vector) : outcome float :=
  d <- Np.dot a b ;;
  Return (1.0 - d / (Np.norm a * Np.norm b + 1e-8))%float.

Definition euclidean (a b : vector) : outcome float :=
  d <- Np.sub a b ;;
  Return (Np.norm d).

(** negative dot *)
Definition neg_dot (a b : vector) : outcome float :=
  d <- Np.dot a b ;;
  Return (- d)%float.

Definition func_map : dict string (vector -> vector -> outcome float) :=
  [("cosine", vers); ("euclidean", euclidean); ("dot", neg_dot)].

(* ================================================================== *)
(** * The inverted-file index *)

(** [d[k]] on a [defaultdict(list)]: a missing key is inserted with an
    empty list. *)
Definition defaultdict_getitem (d : dict Z (list Z)) (k : Z)
  : list Z * dict Z (list Z) :=
  match dict_get d k with
  | Some l => (l, d)
  | None => ([], dict_set d k [])
  end.

Record IVFIndex : Type := {
  storage : VectorStorage;
  nprobe : Z;
  distance_fn : string;
  is_built : bool;
  dist_func : vector -> vector -> outcome float;
  inverted_lists : dict Z (list Z);   (* cluster id -> ids *)
  assignments : dict Z Z;             (* id -> cluster id *)
  centroids : list vector
}.

(** The attributes [build] assigns do not exist before the first build; the
    code reads them only behind [is_built], so they start out empty here. *)
Definition IVFIndex_init (storage : VectorStorage) (nprobe : Z)
  (distance_fn : string) : outcome IVFIndex :=
  f <- getitem func_map distance_fn ;;
  Return {| storage := storage; nprobe := nprobe;
            distance_fn := distance_fn; is_built := false; dist_func := f;
            inverted_lists := []; assignments := []; centroids := [] |}.

Definition set_storage (self : IVFIndex) (s : VectorStorage) : IVFIndex :=
  {| storage := s; nprobe := nprobe self; distance_fn := distance_fn self;
     is_built := is_built self; dist_func := dist_func self;
     inverted_lists := inverted_lists self; assignments := assignments self;
     centroids := centroids self |}.

Definition set_inverted_lists (self : IVFIndex) (il : dict Z (list Z))
  : IVFIndex :=
  {| storage := storage self; nprobe := nprobe self;
     distance_fn := distance_fn self; is_built := is_built self;
     dist_func := dist_func self; inverted_lists := il;
     assignments := assignments self; centroids := centroids self |}.

(** What [get_stats] reports. *)
Record built_stats : Type := {
  n_clusters : Z;
  n_vectors : Z;
  avg_cluster_size : float;
  min_cluster_size : Z;
  max_cluster_size : Z;
  empty_clusters : Z;
  stats_nprobe : Z
}.

Inductive stats : Type :=
| StatsNotBuilt                   (* {"built": False} *)
| StatsBuilt (s : built_stats).   (* {"built": True, ...} *)

Section IVF.

(** [FastKMeans(d=d, k=k, gpu=False)]: [fit_predict d k data] is the pair of
    [kmeans.centroids] and the predictions [kmeans.fit_predict(data)]. *)
Variable fit_predict : Z -> Z -> list vector -> list vector * list Z.

Definition run_kmeans (data : list vector) : list vector * list Z :=
  fit_predict (len (hd [] data)) (len data / 10 + 1) data.

(** One round of the loop of [build_index]. *)
Definition assign (maps : dict Z (list Z) * dict Z Z) (p : Z * Z)
  : dict Z (list Z) * dict Z Z :=
  let '(id, cluster_id) := p in
  let '(lst, cluster_ids_map) := defaultdict_getitem (fst maps) cluster_id in
  (dict_set cluster_ids_map cluster_id (lst ++ [id]),
   dict_set (snd maps) id cluster_id).

Definition build_index (vs : VectorStorage)
  : outcome (dict Z (list Z) * dict Z Z * list vector) :=
  all <- get_all vs ;;
  match all with
  | [] => Raise (ValueError "not enough values to unpack (expected 2, got 0)")
  | _ :: _ =>
      let ids := map (fun r => fst (fst r)) all in
      let vectors := map (fun r => snd (fst r)) all in
      let '(centroids, preds) := run_kmeans vectors in
      let '(cluster_ids_map, id_cluster_map) :=
        fold_left assign (combine ids preds) ([], []) in
      Return (cluster_ids_map, id_cluster_map, centroids)
  end.

(** [build] prints the average and the largest list size; the returned
    pair stands for that line of output. *)
Definition build (self : IVFIndex) : outcome (float * Z) * IVFIndex :=
  match get_all (storage self) with
  | Raise e => (Raise e, self)
  | Return [] =>
      (Raise (ValueError "Storage is empty, cannot build index"), self)
  | Return (_ :: _) =>
      match build_index (storage self) with
      | Raise e => (Raise e, self)
      | Return (il, asg, cs) =>
          let self' :=
            {| storage := storage self; nprobe := nprobe self;
               distance_fn := distance_fn self; is_built := true;
               dist_func := dist_func self; inverted_lists := il;
               assignments := asg; centroids := cs |} in
          let sizes := map len (values il) in
          (avg <- truediv (sum sizes) (len sizes) ;;
           largest <- py_max sizes ;;
           Return (avg, largest),
           self')
      end
  end.

(** [(vers(centroid, query), cluster id)] for every centroid, sorted. *)
Definition centroid_distances (self : IVFIndex) (query_vector : vector)
  : outcome (list (float * Z)) :=
  ds <- mapM (fun o => d <- vers (snd o) query_vector ;; Return (d, fst o))
             (Fastcore.enumerate (centroids self)) ;;
  Return (sorted tuple_lt ds).

(** [.map(lambda o: self.inverted_lists[o])]: each read goes through the
    defaultdict. *)
Fixpoint lookup_lists (d : dict Z (list Z)) (cluster_ids : list Z)
  : list (list Z) * dict Z (list Z) :=
  match cluster_ids with
  | [] => ([], d)
  | o :: rest =>
      let '(l, d1) := defaultdict_getitem d o in
      let '(ls, d2) := lookup_lists d1 rest in
      (l :: ls, d2)
  end.

(** The [for] loop over the clusters past [nprobe]. *)
Fixpoint extend_candidates (k : Z) (remaining : list (float * Z))
  (candidate_ids : list Z) (d : dict Z (list Z))
  : list Z * dict Z (list Z) :=
  match remaining with
  | [] => (candidate_ids, d)
  | (_, cluster_id) :: rest =>
      let '(l, d1) := defaultdict_getitem d cluster_id in
      let candidate_ids := candidate_ids ++ l in
      if len candidate_ids >=? k * 2 then (candidate_ids, d1)
      else extend_candidates k rest candidate_ids d1
  end.

(** The value of [candidate_ids] when [search] starts resolving, and the
    inverted lists as the lookups left them; [cd] is the sorted list
    [centroid_distances]. *)
Definition candidates (self : IVFIndex) (cd : list (float * Z)) (k : Z)
  : list Z * dict Z (list Z) :=
  let '(lists, il) :=
    lookup_lists (inverted_lists self) (map snd (slice_to (nprobe self) cd)) in
  let candidate_ids := concat lists in
  if len candidate_ids <? k
  then extend_candidates k (slice_from (nprobe self) cd) candidate_ids il
  else (candidate_ids, il).

Definition search (query_vector : vector) (k : Z) (self : IVFIndex)
  : outcome (list (vector * json)) * IVFIndex :=
  if negb (is_built self)
  then (Raise (ValueError "Index not built. Call build() first."), self)
  else
    match centroid_distances self query_vector with
    | Raise e => (Raise e, self)
    | Return cd =>
        let '(candidate_ids, il) := candidates self cd k in
        let self' := set_inverted_lists self il in
        (results <- mapM (fun id => get id (storage self')) candidate_ids ;;
         ranked <- sorted_key (fun o => dist_func self query_vector (fst o))
                              results ;;
         Return (slice_to k ranked),
         self')
    end.

(** The lambda is the positional argument of [L.zip], whose only parameter
    is [cycled]. *)
Definition add_vectors_bulk (vectors : list vector) (metadata_list : list json)
  (self : IVFIndex) : outcome (list (vector * json)) * IVFIndex :=
  let ids :=
    Fastcore.L_zip JNull (vectors, metadata_list)
      (Fastcore.PyFunction
         (fun o : vector * json => add (fst o) (snd o))) in
  match build self with
  | (Raise e, self') => (Raise e, self')
  | (Return _, self') => (Return ids, self')
  end.

Definition get_stats (self : IVFIndex) : outcome stats :=
  if negb (is_built self) then Return StatsNotBuilt
  else
    let sizes := map len (values (inverted_lists self)) in
    avg <- truediv (sum sizes) (len sizes) ;;
    smallest <- py_min sizes ;;
    largest <- py_max sizes ;;
    Return (StatsBuilt
              {| n_clusters := len (centroids self);
                 n_vectors := sum sizes;
                 avg_cluster_size := avg;
                 min_cluster_size := smallest;
                 max_cluster_size := largest;
                 empty_clusters := count 0 sizes;
                 stats_nprobe := nprobe self |}).

End IVF.

(* ================================================================== *)
(** * Facts about dictionaries *)

Section DictFacts.
Context {K V : Type} `{Hashable K}.
Implicit Types (d : dict K V) (k : K) (v : V).

Lemma key_eqb_refl k : key_eqb k k = true.
Proof. now apply key_eqb_eq. Qed.

Lemma key_eqb_neq k k' : k <> k' -> key_eqb k k' = false.
Proof.
  intros Hne. destruct (key_eqb k k') eqn:E; [|reflexivity].
  apply key_eqb_eq in E. contradiction.
Qed.

Lemma key_eq_dec k k' : {k = k'} + {k <> k'}.
Proof.
  destruct (key_eqb k k') eqn:E.
  - left. now apply key_eqb_eq.
  - right. intros ->. rewrite key_eqb_refl in E. discriminate.
Qed.

Lemma dict_get_In d k v : dict_get d k = Some v -> In (k, v) d.
Proof.
  induction d as [|[k' v'] d IH]; simpl; [discriminate|].
  destruct (key_eqb k' k) eqn:E.
  - apply key_eqb_eq in E. intros [= ->]. subst. now left.
  - intros Hg. right. auto.
Qed.

Lemma dict_get_None d k : dict_get d k = None <-> ~ In k (keys d).
Proof.
  induction d as [|[k' v'] d IH]; simpl.
  - tauto.
  - destruct (key_eqb k' k) eqn:E.
    + apply key_eqb_eq in E. split; [discriminate|]. intros Hn. exfalso. auto.
    + rewrite IH. split.
      * intros Hn [->|Hin]; [|auto]. rewrite key_eqb_refl in E. discriminate.
      * intros Hn Hin. auto.
Qed.

Lemma dict_get_Some_key d k v : dict_get d k = Some v -> In k (keys d).
Proof.
  intros Hg. apply dict_get_In in Hg.
  change k with (fst (k, v)). now apply in_map.
Qed.

Lemma In_dict_get d k v : dict_wf d -> In (k, v) d -> dict_get d k = Some v.
Proof.
  unfold dict_wf, keys.
  induction d as [|[k' v'] d IH]; simpl; [tauto|].
  intros Hnd [Heq|Hin]; inversion Hnd as [|? ? Hni Hnd']; subst.
  - injection Heq as -> ->. now rewrite key_eqb_refl.
  - destruct (key_eqb k' k) eqn:E.
    + apply key_eqb_eq in E. subst. exfalso. apply Hni.
      change k with (fst (k, v)). now apply in_map.
    + auto.
Qed.

Lemma dict_get_set_same d k v : dict_get (dict_set d k v) k = Some v.
Proof.
  induction d as [|[k' v'] d IH]; simpl.
  - now rewrite key_eqb_refl.
  - destruct (key_eqb k' k) eqn:E; simpl; rewrite E; auto.
Qed.

Lemma dict_get_set_other d k k' v :
  k <> k' -> dict_get (dict_set d k v) k' = dict_get d k'.
Proof.
  intros Hne. induction d as [|[k0 v0] d IH]; simpl.
  - now rewrite key_eqb_neq.
  - destruct (key_eqb k0 k) eqn:E; simpl.
    + apply key_eqb_eq in E. subst. now rewrite key_eqb_neq.
    + now rewrite IH.
Qed.

Lemma keys_set_present d k v :
  In k (keys d) -> keys (dict_set d k v) = keys d.
Proof.
  unfold keys. induction d as [|[k' v'] d IH]; simpl; [tauto|].
  intros Hin. destruct (key_eqb k' k) eqn:E; simpl; [reflexivity|].
  f_equal. apply IH. destruct Hin as [->|]; [|assumption].
  rewrite key_eqb_refl in E. discriminate.
Qed.

Lemma keys_set_absent d k v :
  ~ In k (keys d) -> dict_set d k v = d ++ [(k, v)].
Proof.
  unfold keys. induction d as [|[k' v'] d IH]; simpl; [reflexivity|].
  intros Hni. destruct (key_eqb k' k) eqn:E.
  - apply key_eqb_eq in E. subst. exfalso. auto.
  - f_equal. auto.
Qed.

Lemma dict_set_wf d k v : dict_wf d -> dict_wf (dict_set d k v).
Proof.
  intros Hwf. destruct (in_dec key_eq_dec k (keys d)) as [Hin|Hni].
  - unfold dict_wf. now rewrite keys_set_present.
  - rewrite keys_set_absent by assumption. unfold dict_wf, keys in *.
    rewrite map_app. simpl. apply NoDup_app; auto.
    + constructor; [simpl; tauto|constructor].
    + intros a Ha [<-|[]]. contradiction.
Qed.

Lemma keys_remove_subset d k k' :
  In k' (keys (dict_remove d k)) -> In k' (keys d).
Proof.
  unfold keys. induction d as [|[k0 v0] d IH]; simpl; [tauto|].
  destruct (key_eqb k0 k); simpl; intuition.
Qed.

Lemma dict_remove_wf d k : dict_wf d -> dict_wf (dict_remove d k).
Proof.
  unfold dict_wf. induction d as [|[k0 v0] d IH]; simpl; [auto|].
  intros Hnd. inversion Hnd as [|? ? Hni Hnd']; subst.
  destruct (key_eqb k0 k); [assumption|].
  simpl. constructor; [|auto].
  intros Hin. apply Hni. eapply keys_remove_subset, Hin.
Qed.

Lemma keys_remove d k :
  keys (dict_remove d k) = keys d \/
  exists l1 l2, keys d = l1 ++ k :: l2 /\ keys (dict_remove d k) = l1 ++ l2.
Proof.
  unfold keys. induction d as [|[k0 v0] d IH]; simpl; [now left|].
  destruct (key_eqb k0 k) eqn:E.
  - apply key_eqb_eq in E. subst. right. now exists [], (map fst d).
  - destruct IH as [IH|(l1 & l2 & E1 & E2)].
    + left. simpl. now f_equal.
    + right. exists (k0 :: l1), l2. simpl. now rewrite E1, E2.
Qed.

(** A comprehension over the items of a dict rebuilds the dict. *)
Lemma dict_of_items_acc (acc items : dict K V) :
  NoDup (keys (acc ++ items)) ->
  fold_left (fun d kv => dict_set d (fst kv) (snd kv)) items acc
  = acc ++ items.
Proof.
  revert acc. induction items as [|[k v] items IH]; intros acc Hnd; simpl.
  - now rewrite app_nil_r.
  - rewrite keys_set_absent.
    + rewrite IH; rewrite <- app_assoc; [reflexivity|exact Hnd].
    + unfold keys in *. rewrite map_app in Hnd. simpl in Hnd.
      apply NoDup_remove_2 in Hnd. intros Hin. apply Hnd.
      apply in_or_app. now left.
Qed.

Lemma dict_of_items_wf d : dict_wf d -> dict_of_items d = d.
Proof. intros Hwf. unfold dict_of_items. now rewrite dict_of_items_acc. Qed.

End DictFacts.

(* ================================================================== *)
(** * The store: calls, ids, consistency *)

(** A call a client makes on a store.  A client that catches the
    [AssertionError] of a rejected [add] goes on with the store as the call
    left it. *)
Inductive call : Type :=
| CallAdd (v : vector) (m : json)
| CallDelete (id : Z).

Definition step (s : VectorStorage) (c : call) : VectorStorage :=
  match c with
  | CallAdd v m => snd (add v m s)
  | CallDelete id => snd (delete id s)
  end.

Definition run (calls : list call) (s : VectorStorage) : VectorStorage :=
  fold_left step calls s.

(** The ids the [add] calls of a sequence return, in call order. *)
Fixpoint returned_ids (calls : list call) (s : VectorStorage) : list Z :=
  match calls with
  | [] => []
  | c :: rest =>
      match c with
      | CallAdd v m =>
          match fst (add v m s) with
          | Return id => id :: returned_ids rest (step s c)
          | Raise _ => returned_ids rest (step s c)
          end
      | CallDelete _ => returned_ids rest (step s c)
      end
  end.

(** The two dicts of a store hold the same ids, each once. *)
Definition store_wf (s : VectorStorage) : Prop :=
  dict_wf (vectors s) /\ keys (metadatas s) = keys (vectors s).

Lemma add_cases v m s :
  (dimension s <> len v /\ add v m s = (Raise AssertionError, s)) \/
  (dimension s = len v /\
   add v m s =
   (Return (next_id s),
    {| dimension := dimension s;
       vectors := dict_set (vectors s) (next_id s) v;
       metadatas := dict_set (metadatas s) (next_id s) m;
       next_id := next_id s + 1 |})).
Proof.
  unfold add. destruct (dimension s =? len v) eqn:E; simpl.
  - right. apply Z.eqb_eq in E. auto.
  - left. apply Z.eqb_neq in E. auto.
Qed.

Lemma next_id_step s c : next_id s <= next_id (step s c).
Proof.
  destruct c as [v m|id]; simpl.
  - destruct (add_cases v m s) as [[_ ->]|[_ ->]]; simpl; lia.
  - unfold delete. destruct (negb (dict_in id (vectors s))); simpl; [lia|].
    destruct (pop (metadatas s) id) as [[?|?] ?]; simpl; lia.
Qed.

Lemma next_id_run calls s : next_id s <= next_id (run calls s).
Proof.
  revert s. induction calls as [|c calls IH]; intros s; simpl; [lia|].
  specialize (IH (step s c)). pose proof (next_id_step s c). lia.
Qed.

Lemma returned_ids_bounds calls s :
  Forall (fun i => next_id s <= i < next_id (run calls s))
         (returned_ids calls s).
Proof.
  revert s. induction calls as [|c calls IH]; intros s; simpl; [constructor|].
  assert (Htail : Forall (fun i => next_id s <= i < next_id (run calls (step s c)))
                         (returned_ids calls (step s c))).
  { eapply Forall_impl; [|apply IH]. simpl. intros i Hi.
    pose proof (next_id_step s c). lia. }
  destruct c as [v m|id]; [|exact Htail].
  destruct (fst (add v m s)) eqn:E; [|exact Htail].
  constructor; [|exact Htail].
  pose proof (next_id_run calls (step s (CallAdd v m))) as Hrun.
  simpl in Hrun |- *.
  destruct (add_cases v m s) as [[_ Ha]|[_ Ha]]; rewrite Ha in *; simpl in *.
  - discriminate.
  - injection E as <-. lia.
Qed.

Lemma returned_ids_app calls1 calls2 s :
  returned_ids (calls1 ++ calls2) s
  = returned_ids calls1 s ++ returned_ids calls2 (run calls1 s).
Proof.
  revert s. induction calls1 as [|c calls1 IH]; intros s; simpl; [reflexivity|].
  destruct c as [v m|id]; [destruct (fst (add v m s))|]; simpl; now rewrite IH.
Qed.

Lemma returned_ids_sorted calls s : StronglySorted Z.lt (returned_ids calls s).
Proof.
  revert s. induction calls as [|c calls IH]; intros s; simpl; [constructor|].
  destruct c as [v m|id]; [|apply IH].
  destruct (fst (add v m s)) eqn:E; [|apply IH].
  constructor; [apply IH|].
  eapply Forall_impl; [|apply returned_ids_bounds]. simpl. intros i Hi.
  destruct (add_cases v m s) as [[_ Ha]|[_ Ha]]; rewrite Ha in *; simpl in *.
  - discriminate.
  - injection E as <-. lia.
Qed.

(** C9.  Whatever the store and whatever the sequence of [add] and
    [delete] calls, the ids that the [add] calls return are strictly
    increasing in call order; and an id that an earlier [add] returned and
    that is deleted afterwards is not returned by any later [add]. *)
Theorem id_monotonicity (s : VectorStorage) :
  (forall calls, StronglySorted Z.lt (returned_ids calls s)) /\
  (forall calls1 id calls2,
      In id (returned_ids calls1 s) ->
      ~ In id (returned_ids calls2 (run (calls1 ++ [CallDelete id]) s))).
Proof.
  split; [intros; apply returned_ids_sorted|].
  intros calls1 id calls2 Hin Hlater.
  pose proof (returned_ids_bounds calls1 s) as H1.
  pose proof (returned_ids_bounds calls2 (run (calls1 ++ [CallDelete id]) s)) as H2.
  rewrite Forall_forall in H1, H2.
  specialize (H1 _ Hin). specialize (H2 _ Hlater).
  unfold run in H2 at 1. rewrite fold_left_app in H2. simpl in H2.
  pose proof (next_id_step (fold_left step calls1 s) (CallDelete id)) as Hd.
  simpl in Hd. unfold run in H1. lia.
Qed.

Lemma keys_set_congr {A B} (d1 : dict Z A) (d2 : dict Z B) k v1 v2 :
  keys d1 = keys d2 -> keys (dict_set d1 k v1) = keys (dict_set d2 k v2).
Proof.
  unfold keys. revert d2.
  induction d1 as [|[k1 a] d1 IH]; intros [|[k2 b] d2]; simpl;
    try discriminate; [reflexivity|].
  intros [= -> Ht]. destruct (k2 =? k); simpl; f_equal; auto.
Qed.

Lemma keys_remove_congr {A B} (d1 : dict Z A) (d2 : dict Z B) k :
  keys d1 = keys d2 -> keys (dict_remove d1 k) = keys (dict_remove d2 k).
Proof.
  unfold keys. revert d2.
  induction d1 as [|[k1 a] d1 IH]; intros [|[k2 b] d2]; simpl;
    try discriminate; [reflexivity|].
  intros [= -> Ht]. destruct (k2 =? k); simpl; [assumption|]. f_equal; auto.
Qed.

Lemma init_wf d : store_wf (VectorStorage_init d).
Proof. split; [constructor|reflexivity]. Qed.

Lemma step_wf s c : store_wf s -> store_wf (step s c).
Proof.
  intros [Hwf Hk]. destruct c as [v m|id]; simpl.
  - destruct (add_cases v m s) as [[_ ->]|[_ ->]]; simpl; [now split|].
    split; simpl; [now apply dict_set_wf|now apply keys_set_congr].
  - unfold delete. destruct (dict_in id (vectors s)) eqn:E; simpl; [|now split].
    unfold pop. destruct (dict_get (metadatas s) id) eqn:G'; simpl.
    + split; simpl; [now apply dict_remove_wf|now apply keys_remove_congr].
    + exfalso. unfold dict_in in E.
      destruct (dict_get (vectors s) id) eqn:G; [|discriminate].
      apply dict_get_Some_key in G. rewrite <- Hk in G.
      apply dict_get_None in G'. contradiction.
Qed.

Lemma run_wf calls s : store_wf s -> store_wf (run calls s).
Proof.
  revert s. induction calls as [|c calls IH]; intros s Hwf; simpl; [assumption|].
  apply IH. now apply step_wf.
Qed.

(* ================================================================== *)
(** * Persistence *)

Fixpoint all_chars (p : ascii -> bool) (s : string) : bool :=
  match s with
  | EmptyString => true
  | String c s' => p c && all_chars p s'
  end.

Lemma digit_char c :
  is_digit c = true ->
  is_space c = false /\ Ascii.eqb c "_" = false /\
  Ascii.eqb c "-" = false /\ Ascii.eqb c "+" = false.
Proof.
  destruct c as [[] [] [] [] [] [] [] []]; intros Hd;
    try discriminate Hd; repeat split.
Qed.

Lemma digits_all (d : Decimal.uint) :
  all_chars is_digit (NilEmpty.string_of_uint d) = true.
Proof. induction d; simpl; auto. Qed.

Lemma lstrip_digits s : all_chars is_digit s = true -> lstrip s = s.
Proof.
  destruct s as [|c s]; [reflexivity|]. simpl.
  intros Hd. apply andb_prop in Hd. destruct Hd as [Hc _].
  now rewrite (proj1 (digit_char c Hc)).
Qed.

Lemma rstrip_digits s : all_chars is_digit s = true -> rstrip s = s.
Proof.
  induction s as [|c s IH]; [reflexivity|]. simpl.
  intros Hd. apply andb_prop in Hd. destruct Hd as [Hc Hs].
  rewrite (IH Hs), (proj1 (digit_char c Hc)). now destruct s.
Qed.

Lemma digits_of_digits s b :
  all_chars is_digit s = true -> s <> EmptyString \/ b = true ->
  digits_of b s = Some s.
Proof.
  revert b. induction s as [|c s IH]; intros b Hd Hne; simpl.
  - destruct Hne as [Hne| ->]; [contradiction|reflexivity].
  - simpl in Hd. apply andb_prop in Hd. destruct Hd as [Hc Hs].
    destruct (digit_char c Hc) as (_ & -> & _). rewrite Hc.
    rewrite (IH true Hs) by now right. reflexivity.
Qed.

Lemma int_literal_digits (negative : bool) (d : Decimal.uint) :
  d <> Decimal.Nil ->
  int_literal negative (NilEmpty.string_of_uint d)
  = Return (Z.of_int (if negative then Decimal.Neg d else Decimal.Pos d)).
Proof.
  intros Hd. unfold int_literal.
  rewrite digits_of_digits, NilEmpty.usu; [reflexivity|apply digits_all|].
  left. destruct d; simpl; congruence.
Qed.

Lemma int_str (k : Z) : int (str k) = Return k.
Proof.
  rewrite <- (DecimalZ.of_to k) at 2. unfold str, int.
  destruct k as [|p|p]; [reflexivity| |]; simpl Z.to_int.
  - pose proof (DecimalPos.Unsigned.to_uint_nonnil p) as Hnn.
    pose proof (digits_all (Pos.to_uint p)) as Hd.
    pose proof (int_literal_digits false _ Hnn) as Hlit.
    unfold NilZero.string_of_int, NilZero.string_of_uint.
    destruct (Pos.to_uint p) eqn:E; try contradiction;
      unfold strip; rewrite lstrip_digits, rstrip_digits by exact Hd;
      exact Hlit.
  - pose proof (DecimalPos.Unsigned.to_uint_nonnil p) as Hnn.
    pose proof (digits_all (Pos.to_uint p)) as Hd.
    pose proof (int_literal_digits true _ Hnn) as Hlit.
    unfold NilZero.string_of_int, NilZero.string_of_uint.
    assert (Hs : strip (String "-" (NilEmpty.string_of_uint (Pos.to_uint p)))
                 = String "-" (NilEmpty.string_of_uint (Pos.to_uint p))).
    { unfold strip. cbn [lstrip]. change (is_space "-") with false.
      cbn [rstrip]. rewrite (rstrip_digits _ Hd).
      destruct (Pos.to_uint p); try contradiction; reflexivity. }
    destruct (Pos.to_uint p) eqn:E; try contradiction;
      rewrite Hs; exact Hlit.
Qed.

(** Blanks, a plus sign and underscores do not change what [int] reads. *)
Example int_accepts :
  int "+1" = Return 1 /\ int " 7 " = Return 7 /\ int "1_0" = Return 10 /\
  int "-007" = Return (-7) /\
  int "" = Raise (ValueError "invalid literal for int() with base 10") /\
  int "1__0" = Raise (ValueError "invalid literal for int() with base 10") /\
  int "_1" = Raise (ValueError "invalid literal for int() with base 10") /\
  int "- 1" = Raise (ValueError "invalid literal for int() with base 10").
Proof. repeat split. Qed.

Lemma str_inj (k k' : Z) : str k = str k' -> k = k'.
Proof.
  intros E. pose proof (int_str k) as Hk. rewrite E, int_str in Hk.
  now injection Hk.
Qed.

Lemma array_tolist (v : vector) : Np.array (Np.tolist v) = Return v.
Proof.
  unfold Np.array, Np.tolist.
  induction v as [|x v IH]; simpl; [reflexivity|]. now rewrite IH.
Qed.

Lemma mapM_map_inverse {A B} (f : B -> outcome A) (g : A -> B) (l : list A) :
  (forall x, f (g x) = Return x) -> mapM f (map g l) = Return l.
Proof.
  intros Hfg. induction l as [|x l IH]; simpl; [reflexivity|].
  now rewrite Hfg, IH.
Qed.

Lemma load_vectors (d : dict Z vector) :
  mapM (fun kv : string * json =>
          k <- int (fst kv) ;; v <- Np.array (snd kv) ;; Return (k, v))
       (map (fun kv => (str (fst kv), Np.tolist (snd kv))) d)
  = Return d.
Proof.
  apply mapM_map_inverse. intros [k v]. cbn [fst snd].
  now rewrite int_str, array_tolist.
Qed.

Lemma load_metadatas (d : dict Z json) :
  mapM (fun kv : string * json => k <- int (fst kv) ;; Return (k, snd kv))
       (map (fun kv => (str (fst kv), snd kv)) d)
  = Return d.
Proof.
  apply mapM_map_inverse. intros [k m]. cbn [fst snd]. now rewrite int_str.
Qed.

Lemma load_save_data (filepath : string) (s : VectorStorage) (fs : filesystem) :
  dict_get (save filepath s fs) filepath = Some (save_data s).
Proof. apply dict_get_set_same. Qed.

(** The store of the notebook's walk-through, in dimension 2: two records
    added, the second deleted, a third added. *)
Definition example_store : VectorStorage :=
  run [CallAdd [1%float; 0%float] (JObj [("title", JStr "Item 1")]);
       CallAdd [0%float; 1%float] (JObj [("title", JStr "Item 2")]);
       CallDelete 1;
       CallAdd [0.5%float; 0.5%float] (JObj [("title", JStr "Item 3")])]
      (VectorStorage_init 2).

Lemma example_store_wf : store_wf example_store.
Proof. apply run_wf, init_wf. Qed.

(** C6.  Loading the file that [save] wrote gives back the store: the same
    dimension and [next_id], and the same id -> vector and id -> metadata
    dicts, keyed by integers again.  (A dict holds each key once; the file's
    content is the JSON document, read back as written.) *)
Theorem save_load_roundtrip (filepath : string) (s : VectorStorage)
  (fs : filesystem) :
  dict_wf (vectors s) ->
  dict_wf (metadatas s) ->
  load filepath (save filepath s fs) = Return s.
Proof.
  intros Hv Hm. unfold load. rewrite load_save_data.
  unfold save_data. simpl.
  rewrite load_vectors. simpl. rewrite load_metadatas. simpl.
  rewrite !dict_of_items_wf by assumption.
  now destruct s.
Qed.

Lemma save_load_roundtrip_witness :
  load "data/my_vectors.json" (save "data/my_vectors.json" example_store [])
  = Return example_store.
Proof.
  apply (save_load_roundtrip "data/my_vectors.json" example_store []).
  - apply example_store_wf.
  - unfold dict_wf. rewrite (proj2 example_store_wf). apply example_store_wf.
Defined.

(** The names of the top-level fields of a document. *)
Definition field_names (data : json) : list string :=
  match data with
  | JObj fields => keys fields
  | _ => []
  end.

(** C7, as claimed, fails: the fourth field of a saved document is called
    [metadatas]; there is no field [metadata]. *)
Lemma save_has_no_metadata_field :
  field_names (save_data example_store)
    = ["dimension"; "next_id"; "vectors"; "metadatas"] /\
  field (save_data example_store) "metadata" = Raise KeyError /\
  field_names (save_data example_store)
    <> ["dimension"; "next_id"; "vectors"; "metadata"].
Proof. repeat split. discriminate. Qed.

(** C7, amended.  The document [save] writes has exactly the four top-level
    fields [dimension], [next_id], [vectors] and [metadatas]; [vectors] and
    [metadatas] are objects keyed by [str] of the ids of the live records,
    and their key lists are the same. *)
Theorem save_document_fields (filepath : string) (s : VectorStorage)
  (fs : filesystem) :
  store_wf s ->
  exists vs ms,
    dict_get (save filepath s fs) filepath
      = Some (JObj [("dimension", JInt (dimension s));
                    ("next_id", JInt (next_id s));
                    ("vectors", JObj vs);
                    ("metadatas", JObj ms)]) /\
    keys vs = map str (keys (vectors s)) /\
    keys ms = map str (keys (vectors s)) /\
    keys vs = keys ms /\
    NoDup (keys vs).
Proof.
  intros [Hwf Hk].
  exists (map (fun kv => (str (fst kv), Np.tolist (snd kv))) (vectors s)),
         (map (fun kv => (str (fst kv), snd kv)) (metadatas s)).
  assert (Ev : forall (A B : Type) (f : A -> B) (d : dict Z A),
             keys (map (fun kv => (str (fst kv), f (snd kv))) d)
             = map str (keys d)).
  { intros A B f d. unfold keys. rewrite !map_map. reflexivity. }
  assert (Em : keys (map (fun kv : Z * json => (str (fst kv), snd kv))
                         (metadatas s)) = map str (keys (vectors s))).
  { rewrite <- Hk. unfold keys. rewrite !map_map. reflexivity. }
  split; [apply load_save_data|].
  rewrite Ev, Em. repeat split.
  apply Finite.Injective_map_NoDup; [|exact Hwf].
  intros a b. apply str_inj.
Qed.

Lemma save_document_fields_witness :
  exists vs ms,
    dict_get (save "data/my_vectors.json" example_store [])
             "data/my_vectors.json"
      = Some (JObj [("dimension", JInt (dimension example_store));
                    ("next_id", JInt (next_id example_store));
                    ("vectors", JObj vs);
                    ("metadatas", JObj ms)]) /\
    keys vs = map str (keys (vectors example_store)) /\
    keys ms = map str (keys (vectors example_store)) /\
    keys vs = keys ms /\
    NoDup (keys vs).
Proof.
  apply (save_document_fields "data/my_vectors.json" example_store []).
  apply example_store_wf.
Defined.

(* ================================================================== *)
(** * Snapshots of the store *)

Lemma mapM_Return_Forall2 {A B} (f : A -> outcome B) (l : list A) (ys : list B) :
  mapM f l = Return ys -> Forall2 (fun x y => f x = Return y) l ys.
Proof.
  revert ys. induction l as [|x l IH]; intros ys; simpl.
  - intros [= <-]. constructor.
  - destruct (f x) as [y|e] eqn:Ex; [|discriminate].
    destruct (mapM f l) as [ys'|e] eqn:El; [|discriminate].
    intros [= <-]. constructor; auto.
Qed.

Lemma mapM_total {A B} (f : A -> outcome B) (g : A -> B) (l : list A) :
  (forall x, In x l -> f x = Return (g x)) -> mapM f l = Return (map g l).
Proof.
  induction l as [|x l IH]; intros Hf; simpl; [reflexivity|].
  rewrite (Hf x) by now left. rewrite IH; [reflexivity|].
  intros y Hy. apply Hf. now right.
Qed.

(** The record of a live id. *)
Definition record_of (s : VectorStorage) (id : Z) : outcome (Z * vector * json) :=
  v <- getitem (vectors s) id ;;
  m <- getitem (metadatas s) id ;;
  Return (id, v, m).

Lemma get_all_unfold s : get_all s = mapM (record_of s) (keys (vectors s)).
Proof. reflexivity. Qed.

Lemma record_of_get s id r :
  record_of s id = Return r ->
  fst (fst r) = id /\
  dict_get (vectors s) id = Some (snd (fst r)) /\
  get id s = Return (snd (fst r), snd r).
Proof.
  unfold record_of, get, getitem.
  destruct (dict_get (vectors s) id) as [v|]; simpl; [|discriminate].
  destruct (dict_get (metadatas s) id) as [m|]; simpl; [|discriminate].
  intros [= <-]. auto.
Qed.

Lemma get_all_ids s all :
  get_all s = Return all -> map (fun r => fst (fst r)) all = keys (vectors s).
Proof.
  rewrite get_all_unfold. intros Hm. apply mapM_Return_Forall2 in Hm.
  induction Hm as [|id r ids rs Hr _ IH]; simpl; [reflexivity|].
  apply record_of_get in Hr. f_equal; [apply Hr|exact IH].
Qed.

Lemma get_all_vectors s all :
  dict_wf (vectors s) ->
  get_all s = Return all ->
  map (fun r => snd (fst r)) all = values (vectors s).
Proof.
  intros Hwf. rewrite get_all_unfold. intros Hm.
  apply mapM_Return_Forall2 in Hm.
  enough (Hgen : forall (d : dict Z vector) rs,
             incl d (vectors s) ->
             Forall2 (fun x y => record_of s x = Return y) (keys d) rs ->
             map (fun r => snd (fst r)) rs = values d).
  { apply Hgen; [apply incl_refl|exact Hm]. }
  clear all Hm. unfold keys, values.
  induction d as [|[k v] d IH]; intros rs Hsub Hm; simpl in *.
  - inversion Hm. reflexivity.
  - inversion Hm as [|? r ? rs' Hr Hrs]; subst. simpl.
    apply record_of_get in Hr. destruct Hr as (_ & Hv & _).
    rewrite (In_dict_get (vectors s) k v Hwf) in Hv by (apply Hsub; now left).
    injection Hv as <-. f_equal. apply IH; [|assumption].
    intros x Hx. apply Hsub. now right.
Qed.

Lemma get_all_resolve s all :
  get_all s = Return all ->
  forall r, In r all -> get (fst (fst r)) s = Return (snd (fst r), snd r).
Proof.
  rewrite get_all_unfold. intros Hm. apply mapM_Return_Forall2 in Hm.
  induction Hm as [|id r ids rs Hr _ IH]; intros r' Hin; [destruct Hin|].
  destruct Hin as [<-|Hin]; [|auto].
  apply record_of_get in Hr. destruct Hr as (-> & _ & Hg). exact Hg.
Qed.

Lemma get_all_wf s : store_wf s -> exists all, get_all s = Return all.
Proof.
  intros [Hwf Hk]. rewrite get_all_unfold.
  assert (Hv : forall id, In id (keys (vectors s)) ->
                          exists r, record_of s id = Return r).
  { intros id Hin. unfold record_of, getitem.
    destruct (dict_get (vectors s) id) as [v|] eqn:Gv.
    - destruct (dict_get (metadatas s) id) as [m|] eqn:Gm; simpl; eauto.
      apply dict_get_None in Gm. rewrite Hk in Gm. contradiction.
    - apply dict_get_None in Gv. contradiction. }
  revert Hv. generalize (keys (vectors s)) as ids.
  induction ids as [|id ids IH]; intros Hv; simpl; eauto.
  destruct (Hv id) as [r ->]; [now left|].
  destruct IH as [rs ->]; eauto. intros id' Hin. apply Hv. now right.
Qed.

Lemma get_all_empty s : vectors s = [] -> get_all s = Return [].
Proof. intros E. rewrite get_all_unfold, E. reflexivity. Qed.

(* ================================================================== *)
(** * Building the index *)

(** The ids filed under a cluster: those of its entry, none when the
    cluster has no entry. *)
Definition list_of (d : dict Z (list Z)) (c : Z) : list Z :=
  match dict_get d c with
  | Some l => l
  | None => []
  end.

(** The index [build] leaves behind. *)
Definition built_index (self : IVFIndex) (maps : dict Z (list Z) * dict Z Z)
  (cs : list vector) : IVFIndex :=
  {| storage := storage self; nprobe := nprobe self;
     distance_fn := distance_fn self; is_built := true;
     dist_func := dist_func self; inverted_lists := fst maps;
     assignments := snd maps; centroids := cs |}.

(** The line [build] prints. *)
Definition build_report (il : dict Z (list Z)) : outcome (float * Z) :=
  let sizes := map len (values il) in
  avg <- truediv (sum sizes) (len sizes) ;;
  largest <- py_max sizes ;;
  Return (avg, largest).

Lemma dict_set_set {V} (d : dict Z V) k v v' :
  dict_set (dict_set d k v) k v' = dict_set d k v'.
Proof.
  induction d as [|[k0 v0] d IH]; simpl.
  - now rewrite Z.eqb_refl.
  - destruct (k0 =? k) eqn:E; simpl; rewrite E; [reflexivity|]. now rewrite IH.
Qed.

Lemma assign_fst maps id c :
  fst (assign maps (id, c))
  = dict_set (fst maps) c (list_of (fst maps) c ++ [id]).
Proof.
  unfold assign, list_of, defaultdict_getitem.
  destruct (dict_get (fst maps) c); simpl; [reflexivity|].
  apply dict_set_set.
Qed.

Lemma assign_snd maps id c :
  snd (assign maps (id, c)) = dict_set (snd maps) id c.
Proof.
  unfold assign, defaultdict_getitem.
  destruct (dict_get (fst maps) c); reflexivity.
Qed.

Section BuildFacts.
Variable fit_predict : Z -> Z -> list vector -> list vector * list Z.

Lemma build_inv self rep self' :
  build fit_predict self = (Return rep, self') ->
  exists all cs preds,
    get_all (storage self) = Return all /\
    all <> [] /\
    run_kmeans fit_predict (map (fun r => snd (fst r)) all) = (cs, preds) /\
    self' = built_index self
              (fold_left assign
                 (combine (map (fun r => fst (fst r)) all) preds) ([], []))
              cs /\
    build_report (inverted_lists self') = Return rep.
Proof.
  unfold build, build_index.
  destruct (get_all (storage self)) as [[|r all]|e] eqn:Eall; simpl;
    try discriminate.
  destruct (run_kmeans fit_predict _) as [cs preds] eqn:Ek.
  destruct (fold_left assign _ _) as [il asg] eqn:Ef. simpl.
  intros [= Hrep <-].
  exists (r :: all), cs, preds. simpl. rewrite Ef.
  repeat split; try assumption. discriminate.
Qed.

(** An empty store: [build] raises before it touches the index. *)
Lemma build_empty self :
  vectors (storage self) = [] ->
  build fit_predict self
  = (Raise (ValueError "Storage is empty, cannot build index"), self).
Proof. intros E. unfold build. now rewrite get_all_empty. Qed.

End BuildFacts.

Lemma map_fst_combine {A B} (a : list A) (b : list B) :
  (length a <= length b)%nat -> map fst (combine a b) = a.
Proof.
  revert b. induction a as [|x a IH]; intros [|y b] Hlen; simpl in *;
    try lia; try reflexivity.
  f_equal. apply IH. lia.
Qed.

Lemma build_storage fit_predict self :
  storage (snd (build fit_predict self)) = storage self.
Proof.
  unfold build. destruct (get_all (storage self)) as [[|r all]|e];
    try reflexivity.
  destruct (build_index fit_predict (storage self)) as [[[il asg] cs]|e];
    reflexivity.
Qed.

(** What the loop of [build_index] maintains, over the ids [seen] so far. *)
Record partition (maps : dict Z (list Z) * dict Z Z) (seen : list Z) : Prop := {
  part_lists_wf : dict_wf (fst maps);
  part_union : Permutation (concat (values (fst maps))) seen;
  part_assigned : keys (snd maps) = seen;
  part_agree : forall id c,
      dict_get (snd maps) id = Some c <->
      exists l, dict_get (fst maps) c = Some l /\ In id l;
  part_nonempty : Forall (fun l => l <> []) (values (fst maps))
}.

Lemma list_of_Some d c l : dict_get d c = Some l -> list_of d c = l.
Proof. unfold list_of, defaultdict_getitem. now intros ->. Qed.

Lemma list_of_None d c : dict_get d c = None -> list_of d c = [].
Proof. unfold list_of, defaultdict_getitem. now intros ->. Qed.

Lemma concat_values_append (d : dict Z (list Z)) c id :
  Permutation (concat (values (dict_set d c (list_of d c ++ [id]))))
              (concat (values d) ++ [id]).
Proof.
  induction d as [|[k l] d IH].
  - reflexivity.
  - unfold list_of, defaultdict_getitem in *. simpl.
    destruct (k =? c) eqn:E; simpl.
    + rewrite <- !app_assoc. apply Permutation_app_head.
      apply Permutation_app_comm.
    + rewrite <- app_assoc. apply Permutation_app_head.
      destruct (dict_get d c); exact IH.
Qed.

Lemma values_set_In {V} (d : dict Z V) k v x :
  In x (values (dict_set d k v)) -> x = v \/ In x (values d).
Proof.
  unfold values. induction d as [|[k0 v0] d IH]; simpl.
  - intros [<-|[]]. now left.
  - destruct (k0 =? k); simpl; intros [<-|Hin]; auto.
    destruct (IH Hin); auto.
Qed.

Lemma partition_nil : partition ([], []) [].
Proof.
  split; simpl; try constructor.
  - discriminate.
  - intros (l & Hl & _). discriminate.
Qed.

Lemma partition_assign maps seen id c :
  partition maps seen -> ~ In id seen ->
  partition (assign maps (id, c)) (seen ++ [id]).
Proof.
  intros [Hwf Hun Hk Hag Hne] Hfresh.
  assert (Hnew : dict_get (snd maps) id = None).
  { apply dict_get_None. now rewrite Hk. }
  split; rewrite ?assign_fst, ?assign_snd.
  - now apply dict_set_wf.
  - rewrite concat_values_append. now apply Permutation_app_tail.
  - rewrite keys_set_absent by (now rewrite Hk).
    unfold keys in *. rewrite map_app, Hk. reflexivity.
  - intros id' c'. destruct (Z.eq_dec id id') as [<-|Hid].
    + rewrite dict_get_set_same. split.
      * intros [= <-]. exists (list_of (fst maps) c ++ [id]).
        rewrite dict_get_set_same. split; [reflexivity|].
        apply in_or_app. right. now left.
      * intros (l & Hl & Hin). destruct (Z.eq_dec c c') as [->|Hc];
          [reflexivity|].
        rewrite dict_get_set_other in Hl by assumption.
        assert (Hold : dict_get (snd maps) id = Some c') by (apply Hag; eauto).
        congruence.
    + rewrite dict_get_set_other by assumption. rewrite Hag.
      destruct (Z.eq_dec c c') as [<-|Hc].
      * rewrite dict_get_set_same. split.
        -- intros (l & Hl & Hin). eexists. split; [reflexivity|].
           apply in_or_app. left. now rewrite (list_of_Some _ _ _ Hl).
        -- intros (l & [= <-] & Hin). apply in_app_or in Hin.
           destruct Hin as [Hin|[Heq|[]]]; [|congruence].
           destruct (dict_get (fst maps) c) as [l|] eqn:G.
           ++ exists l. split; [reflexivity|].
              now rewrite (list_of_Some _ _ _ G) in Hin.
           ++ rewrite (list_of_None _ _ G) in Hin. destruct Hin.
      * now rewrite dict_get_set_other by assumption.
  - apply Forall_forall. intros l Hin. apply values_set_In in Hin.
    destruct Hin as [->|Hin].
    + now destruct (list_of (fst maps) c).
    + rewrite Forall_forall in Hne. auto.
Qed.

Lemma partition_fold ps maps seen :
  partition maps seen ->
  NoDup (seen ++ map fst ps) ->
  partition (fold_left assign ps maps) (seen ++ map fst ps).
Proof.
  revert maps seen. induction ps as [|[id c] ps IH]; intros maps seen Hp Hnd.
  - simpl. now rewrite app_nil_r.
  - simpl in *. replace (seen ++ id :: map fst ps)
      with ((seen ++ [id]) ++ map fst ps) in * by now rewrite <- app_assoc.
    apply IH; [|assumption].
    apply partition_assign; [assumption|].
    rewrite <- app_assoc in Hnd. simpl in Hnd.
    apply NoDup_remove_2 in Hnd. intros Hin. apply Hnd.
    apply in_or_app. now left.
Qed.

Lemma fold_assign_nonempty ps maps :
  Forall (fun l => l <> []) (values (fst maps)) ->
  Forall (fun l => l <> []) (values (fst (fold_left assign ps maps))).
Proof.
  revert maps. induction ps as [|[id c] ps IH]; intros maps Hne; [exact Hne|].
  cbn [fold_left]. apply IH. rewrite assign_fst.
  apply Forall_forall. intros l Hin. apply values_set_In in Hin.
  destruct Hin as [->|Hin].
  - now destruct (list_of (fst maps) c).
  - rewrite Forall_forall in Hne. auto.
Qed.

Lemma count_nonempty (ls : list (list Z)) :
  Forall (fun l => l <> []) ls -> count 0 (map len ls) = 0.
Proof.
  unfold count. induction 1 as [|l ls Hl _ IH]; [reflexivity|].
  destruct l as [|x l]; [contradiction|]. cbn [map filter].
  destruct (0 =? len (x :: l)) eqn:E; [|exact IH].
  apply Z.eqb_eq in E. unfold len in E. simpl length in E. lia.
Qed.

(* ================================================================== *)
(** * Example stores and indexes *)

(** A stand-in for the clustering library that answers from a table. *)
Definition fixed_kmeans (cs : list vector) (preds : list Z)
  : Z -> Z -> list vector -> list vector * list Z :=
  fun _ _ _ => (cs, preds).

(** The store of the notebook's distance examples: [v1], [v2], [v3]. *)
Definition scenario_store : VectorStorage :=
  run [CallAdd [1%float; 0%float; 0%float] (JObj [("t", JStr "a")]);
       CallAdd [0%float; 1%float; 0%float] (JObj [("t", JStr "b")]);
       CallAdd [(-0.5)%float; (-0.5)%float; 0%float] (JObj [("t", JStr "c")])]
      (VectorStorage_init 3).

Lemma scenario_store_wf : store_wf scenario_store.
Proof. apply run_wf, init_wf. Qed.

(** [IVFIndex(scenario_store, nprobe=2)] *)
Definition scenario_index : IVFIndex :=
  {| storage := scenario_store; nprobe := 2; distance_fn := "cosine";
     is_built := false; dist_func := vers;
     inverted_lists := []; assignments := []; centroids := [] |}.

(** Three vectors make one cluster ([3 // 10 + 1]); this collaborator
    returns it with its mean as the centroid. *)
Definition scenario_kmeans : Z -> Z -> list vector -> list vector * list Z :=
  fixed_kmeans [[0.25%float; 0.25%float; 0%float]] [0; 0; 0].

(** A collaborator that returns two centroids and leaves the second
    cluster without a vector. *)
Definition lopsided_kmeans : Z -> Z -> list vector -> list vector * list Z :=
  fixed_kmeans [[0.25%float; 0.25%float; 0%float]; [9%float; 9%float; 9%float]]
               [0; 0; 0].

(* ================================================================== *)
(** * What [build] establishes *)

Section BuildTheorems.
Variable fit_predict : Z -> Z -> list vector -> list vector * list Z.

(** The maps a successful [build] leaves behind partition the ids of the
    snapshot. *)
Lemma built_maps_partition (self : IVFIndex) rep (self' : IVFIndex) :
  dict_wf (vectors (storage self)) ->
  build fit_predict self = (Return rep, self') ->
  (length (vectors (storage self))
   <= length (snd (run_kmeans fit_predict (values (vectors (storage self))))))%nat ->
  partition (inverted_lists self', assignments self')
            (keys (vectors (storage self))).
Proof.
  intros Hwf Hb Hlen.
  apply build_inv in Hb.
  destruct Hb as (all & cs & preds & Hall & _ & Hkm & -> & _).
  rewrite (get_all_vectors _ _ Hwf Hall) in Hkm. rewrite Hkm in Hlen.
  simpl in Hlen. rewrite (get_all_ids _ _ Hall). simpl.
  pose proof (partition_fold (combine (keys (vectors (storage self))) preds)
                ([], []) [] partition_nil) as Hp.
  simpl in Hp. unfold keys in *.
  rewrite map_fst_combine in Hp by (now rewrite length_map).
  specialize (Hp Hwf). now destruct (fold_left assign _ _).
Qed.

(** C5.  After a successful [build], with a collaborator that returned a
    prediction for every vector ([zip] would drop the ids beyond the
    predictions): the store is the snapshot's, the inverted lists together
    hold exactly its ids, each id once (so no id is in two lists), the
    cluster keys are distinct, and the assignment map sends an id to a
    cluster exactly when that cluster's list contains the id.  (The first
    hypothesis says that [vectors] is a dict: no key twice.) *)
Theorem build_partition (self : IVFIndex) rep (self' : IVFIndex) :
  dict_wf (vectors (storage self)) ->
  build fit_predict self = (Return rep, self') ->
  (length (vectors (storage self))
   <= length (snd (run_kmeans fit_predict (values (vectors (storage self))))))%nat ->
  storage self' = storage self /\
  Permutation (concat (values (inverted_lists self')))
              (keys (vectors (storage self))) /\
  NoDup (concat (values (inverted_lists self'))) /\
  dict_wf (inverted_lists self') /\
  keys (assignments self') = keys (vectors (storage self)) /\
  (forall id c,
      dict_get (assignments self') id = Some c <->
      exists l, dict_get (inverted_lists self') c = Some l /\ In id l).
Proof.
  intros Hwf Hb Hlen.
  destruct (built_maps_partition self rep self' Hwf Hb Hlen)
    as [Hlw Hun Hasg Hag _]. simpl in *.
  split.
  - pose proof (build_storage fit_predict self) as Hs.
    now rewrite Hb in Hs.
  - repeat split; try assumption.
    + eapply Permutation_NoDup; [symmetry; exact Hun|exact Hwf].
    + apply Hag.
    + apply Hag.
Qed.

(** C8, amended.  On a store without a live record [build] raises the
    empty-store error and leaves the index as it was: the built flag keeps
    its value, so it is false afterwards when it was false before. *)
Theorem build_empty_store (self : IVFIndex) :
  vectors (storage self) = [] ->
  build fit_predict self
    = (Raise (ValueError "Storage is empty, cannot build index"), self) /\
  is_built (snd (build fit_predict self)) = is_built self.
Proof. intros E. now rewrite build_empty. Qed.

(** C10.  Right after a successful [build], [get_stats] reports no empty
    cluster and counts the centroids as the clusters, whatever the
    collaborator returned: a cluster gets an inverted list only when an id
    is appended to it. *)
Theorem stats_after_build (self : IVFIndex) rep (self' : IVFIndex) :
  build fit_predict self = (Return rep, self') ->
  exists st,
    get_stats self' = Return (StatsBuilt st) /\
    empty_clusters st = 0 /\
    n_clusters st = len (centroids self') /\
    Forall (fun l => l <> []) (values (inverted_lists self')).
Proof.
  intros Hb. apply build_inv in Hb.
  destruct Hb as (all & cs & preds & _ & _ & _ & -> & Hrep).
  assert (Hne : Forall (fun l => l <> [])
                  (values (fst (fold_left assign
                     (combine (map (fun r => fst (fst r)) all) preds)
                     ([], []))))).
  { apply fold_assign_nonempty. constructor. }
  unfold get_stats. unfold build_report in Hrep. simpl in *.
  destruct (truediv _ _) as [avg|] eqn:Ediv; [|discriminate]. simpl in *.
  destruct (py_max _) as [largest|] eqn:Emax; [|discriminate]. simpl.
  destruct (py_min _) as [smallest|] eqn:Emin.
  - simpl. eexists. split; [reflexivity|]. simpl.
    split; [now apply count_nonempty|]. split; [reflexivity|exact Hne].
  - exfalso. unfold py_min, py_max in *.
    destruct (map len _); discriminate.
Qed.

End BuildTheorems.

(** The scenario index after [build()]. *)
Definition built_scenario : IVFIndex :=
  snd (build scenario_kmeans scenario_index).

Lemma build_partition_witness :
  storage built_scenario = storage scenario_index /\
  Permutation (concat (values (inverted_lists built_scenario)))
              (keys (vectors (storage scenario_index))) /\
  NoDup (concat (values (inverted_lists built_scenario))) /\
  dict_wf (inverted_lists built_scenario) /\
  keys (assignments built_scenario) = keys (vectors (storage scenario_index)) /\
  (forall id c,
      dict_get (assignments built_scenario) id = Some c <->
      exists l, dict_get (inverted_lists built_scenario) c = Some l /\ In id l).
Proof.
  apply (build_partition scenario_kmeans scenario_index (3%float, 3)).
  - apply (proj1 scenario_store_wf).
  - vm_compute. reflexivity.
  - vm_compute. repeat constructor.
Defined.

(** The client deletes every record from the store the built index
    refers to. *)
Definition emptied_scenario : IVFIndex :=
  set_storage built_scenario
    (run [CallDelete 0; CallDelete 1; CallDelete 2] (storage built_scenario)).

(** C8, as claimed, fails: an index that was built before its store was
    emptied is still flagged as built after the failed [build]. *)
Lemma build_empty_keeps_built_flag :
  vectors (storage emptied_scenario) = [] /\
  fst (build scenario_kmeans emptied_scenario)
    = Raise (ValueError "Storage is empty, cannot build index") /\
  is_built (snd (build scenario_kmeans emptied_scenario)) = true.
Proof. repeat split. Qed.

Lemma build_empty_store_witness :
  build scenario_kmeans emptied_scenario
    = (Raise (ValueError "Storage is empty, cannot build index"),
       emptied_scenario) /\
  is_built (snd (build scenario_kmeans emptied_scenario))
    = is_built emptied_scenario.
Proof.
  apply (build_empty_store scenario_kmeans emptied_scenario). reflexivity.
Defined.

Lemma stats_after_build_witness :
  exists st,
    get_stats (snd (build lopsided_kmeans scenario_index))
      = Return (StatsBuilt st) /\
    empty_clusters st = 0 /\
    n_clusters st = len (centroids (snd (build lopsided_kmeans scenario_index))) /\
    Forall (fun l => l <> [])
           (values (inverted_lists (snd (build lopsided_kmeans scenario_index)))).
Proof.
  apply (stats_after_build lopsided_kmeans scenario_index (3%float, 3)).
  vm_compute. reflexivity.
Defined.

(** Two centroids, one list: the cluster without vectors has no entry
    after [build]; a search that probes it leaves an empty list behind,
    and from then on it is counted. *)
Example stats_before_and_after_search :
  get_stats (snd (build lopsided_kmeans scenario_index))
    = Return (StatsBuilt
                {| n_clusters := 2; n_vectors := 3; avg_cluster_size := 3;
                   min_cluster_size := 3; max_cluster_size := 3;
                   empty_clusters := 0; stats_nprobe := 2 |}) /\
  get_stats (snd (search [0.7%float; 0.7%float; 0%float] 2
                         (snd (build lopsided_kmeans scenario_index))))
    = Return (StatsBuilt
                {| n_clusters := 2; n_vectors := 3; avg_cluster_size := 1.5;
                   min_cluster_size := 0; max_cluster_size := 3;
                   empty_clusters := 1; stats_nprobe := 2 |}).
Proof. split; vm_compute; reflexivity. Qed.

(* ================================================================== *)
(** * [add_vectors_bulk] *)

(** X3.  [add_vectors_bulk] leaves the store as it found it, whatever it
    is given. *)
Lemma add_vectors_bulk_storage fit_predict vs ms self :
  storage (snd (add_vectors_bulk fit_predict vs ms self)) = storage self.
Proof.
  unfold add_vectors_bulk. pose proof (build_storage fit_predict self) as Hs.
  destruct (build fit_predict self) as [[rep|e] self']; exact Hs.
Qed.

(** C1 (the code does not do this).  Called with one new vector on the
    built scenario index, [add_vectors_bulk] returns the (vector, metadata)
    pair itself, not an id, and the store still holds its three records
    with [next_id] 3; a call of [add] would have stored the vector under
    id 3. *)
Theorem add_vectors_bulk_adds_nothing :
  fst (add_vectors_bulk scenario_kmeans
         [[1%float; 1%float; 0%float]] [JObj [("t", JStr "d")]] built_scenario)
    = Return [([1%float; 1%float; 0%float], JObj [("t", JStr "d")])] /\
  storage (snd (add_vectors_bulk scenario_kmeans
                  [[1%float; 1%float; 0%float]] [JObj [("t", JStr "d")]]
                  built_scenario))
    = scenario_store /\
  keys (vectors scenario_store) = [0; 1; 2] /\
  next_id scenario_store = 3 /\
  fst (add [1%float; 1%float; 0%float] (JObj [("t", JStr "d")]) scenario_store)
    = Return 3.
Proof. repeat split. Qed.

(** With no metadata at all, [cycle] supplies [None] for every vector. *)
Example add_vectors_bulk_without_metadata :
  fst (add_vectors_bulk scenario_kmeans
         [[1%float; 1%float; 0%float]; [0%float; 0%float; 1%float]] []
         built_scenario)
    = Return [([1%float; 1%float; 0%float], JNull);
              ([0%float; 0%float; 1%float], JNull)].
Proof. reflexivity. Qed.

(* ================================================================== *)
(** * The order of floats *)

(** Where a float that is not NaN stands: sign class first, then exponent
    and mantissa. *)
Definition sf_rank (f : spec_float) : Z * Z * Z :=
  match f with
  | S754_zero _ => (0, 0, 0)
  | S754_infinity s => (if s then -2 else 2, 0, 0)
  | S754_nan => (0, 0, 0)
  | S754_finite s m e => if s then (-1, - e, Z.neg m) else (1, e, Z.pos m)
  end.

Definition rank_compare (a b : Z * Z * Z) : comparison :=
  match fst (fst a) ?= fst (fst b) with
  | Eq => match snd (fst a) ?= snd (fst b) with
          | Eq => snd a ?= snd b
          | c => c
          end
  | c => c
  end.

Definition rank (x : float) : Z * Z * Z := sf_rank (Prim2SF x).

Definition rank_lt (a b : Z * Z * Z) : Prop :=
  fst (fst a) < fst (fst b) \/
  (fst (fst a) = fst (fst b) /\
   (snd (fst a) < snd (fst b) \/
    (snd (fst a) = snd (fst b) /\ snd a < snd b))).

Lemma rank_compare_Lt a b : rank_compare a b = Lt <-> rank_lt a b.
Proof.
  unfold rank_compare, rank_lt.
  destruct a as [[a1 a2] a3], b as [[b1 b2] b3]; simpl.
  destruct (Z.compare_spec a1 b1), (Z.compare_spec a2 b2),
    (Z.compare_spec a3 b3); split; intros Hc; try discriminate;
    try reflexivity; try lia.
Qed.

Lemma rank_compare_Eq a b : rank_compare a b = Eq <-> a = b.
Proof.
  unfold rank_compare.
  destruct a as [[a1 a2] a3], b as [[b1 b2] b3]; simpl.
  destruct (Z.compare_spec a1 b1), (Z.compare_spec a2 b2),
    (Z.compare_spec a3 b3); split; intros Hc; try discriminate;
    try congruence; try (injection Hc; lia).
Qed.

Lemma SFcompare_rank x y :
  x <> S754_nan -> y <> S754_nan ->
  SFcompare x y = Some (rank_compare (sf_rank x) (sf_rank y)).
Proof.
  intros Hx Hy.
  destruct x as [[]|[]| |[] mx ex], y as [[]|[]| |[] my ey];
    try contradiction; try reflexivity; unfold rank_compare; simpl;
    rewrite ?Z.compare_opp; 
    try (rewrite (Z.compare_antisym ex ey));
    destruct (ey ?= ex) eqn:E; try reflexivity; simpl;
    try (destruct (ex ?= ey) eqn:E'; reflexivity).
Qed.

Definition not_nan (x : float) : Prop := PrimFloat.is_nan x = false.

Lemma not_nan_spec x : not_nan x <-> Prim2SF x <> S754_nan.
Proof.
  unfold not_nan, PrimFloat.is_nan. rewrite eqb_spec. unfold SFeqb. split.
  - intros Hn E. rewrite E in Hn. discriminate.
  - intros Hn. rewrite SFcompare_rank by assumption.
    now rewrite (proj2 (rank_compare_Eq _ _) eq_refl).
Qed.

Lemma ltb_not_nan x y : (x <? y)%float = true -> not_nan x /\ not_nan y.
Proof.
  rewrite ltb_spec, !not_nan_spec. unfold SFltb.
  destruct (Prim2SF x), (Prim2SF y); simpl; try discriminate;
    split; discriminate.
Qed.

Lemma ltb_rank x y :
  not_nan x -> not_nan y ->
  ((x <? y)%float = true <-> rank_lt (rank x) (rank y)).
Proof.
  rewrite !not_nan_spec. intros Hx Hy.
  rewrite ltb_spec. unfold SFltb. rewrite SFcompare_rank by assumption.
  rewrite <- rank_compare_Lt. unfold rank.
  destruct (rank_compare _ _); split; congruence.
Qed.

Lemma eqb_rank x y :
  not_nan x -> not_nan y ->
  ((x =? y)%float = true <-> rank x = rank y).
Proof.
  rewrite !not_nan_spec. intros Hx Hy.
  rewrite eqb_spec. unfold SFeqb. rewrite SFcompare_rank by assumption.
  rewrite <- rank_compare_Eq. unfold rank.
  destruct (rank_compare _ _); split; congruence.
Qed.

Lemma leb_rank x y :
  not_nan x -> not_nan y ->
  ((x <=? y)%float = true <-> ~ rank_lt (rank y) (rank x)).
Proof.
  rewrite !not_nan_spec. intros Hx Hy.
  rewrite leb_spec. unfold SFleb. rewrite SFcompare_rank by assumption.
  pose proof (rank_compare_Lt (rank x) (rank y)) as Hlt.
  pose proof (rank_compare_Eq (rank x) (rank y)) as Heq.
  unfold rank in *.
  destruct (rank_compare (sf_rank (Prim2SF x)) (sf_rank (Prim2SF y))) eqn:E.
  - split; [|reflexivity]. intros _. rewrite (proj1 Heq eq_refl).
    unfold rank_lt. lia.
  - split; [|reflexivity]. intros _. apply proj1 in Hlt.
    specialize (Hlt eq_refl). unfold rank_lt in *. lia.
  - split; [discriminate|]. intros Hn. exfalso. apply Hn.
    destruct (sf_rank (Prim2SF x)) as [[a1 a2] a3],
      (sf_rank (Prim2SF y)) as [[b1 b2] b3].
    unfold rank_compare, rank_lt in *. simpl in *.
    destruct (Z.compare_spec a1 b1), (Z.compare_spec a2 b2),
      (Z.compare_spec a3 b3); try discriminate; lia.
Qed.

Lemma ltb_irrefl x : (x <? x)%float = false.
Proof.
  destruct (PrimFloat.ltb x x) eqn:E; [|reflexivity].
  destruct (ltb_not_nan _ _ E) as [Hx _].
  apply ltb_rank in E; try assumption. unfold rank_lt in E. lia.
Qed.

Lemma ltb_trans x y z :
  (x <? y)%float = true -> (y <? z)%float = true -> (x <? z)%float = true.
Proof.
  intros Hxy Hyz.
  destruct (ltb_not_nan _ _ Hxy) as [Hx Hy].
  destruct (ltb_not_nan _ _ Hyz) as [_ Hz].
  rewrite ltb_rank in * by assumption. unfold rank_lt in *. lia.
Qed.

Lemma ltb_false_rank x y :
  not_nan x -> not_nan y ->
  ((x <? y)%float = false <-> ~ rank_lt (rank x) (rank y)).
Proof.
  intros Hx Hy. rewrite <- ltb_rank by assumption.
  destruct (x <? y)%float; split; congruence.
Qed.

Lemma ltb_negative_trans x y z :
  not_nan y ->
  (x <? y)%float = false -> (y <? z)%float = false -> (x <? z)%float = false.
Proof.
  intros Hy Hxy Hyz.
  destruct (x <? z)%float eqn:E; [|reflexivity].
  destruct (ltb_not_nan _ _ E) as [Hx Hz].
  rewrite ltb_false_rank in Hxy, Hyz by assumption.
  rewrite ltb_rank in E by assumption. unfold rank_lt in *. lia.
Qed.


(* ================================================================== *)
(** * Sorting facts *)

Section SortFacts.
Context {A : Type} (lt : A -> A -> bool) (ok : A -> Prop).
Hypothesis lt_irrefl : forall x, lt x x = false.
Hypothesis lt_trans :
  forall x y z, lt x y = true -> lt y z = true -> lt x z = true.
Hypothesis lt_negative_trans :
  forall x y z, ok y -> lt x y = false -> lt y z = false -> lt x z = false.

(** Neither is below the other. *)
Definition tied (a b : A) : Prop := lt a b = false /\ lt b a = false.

Lemma lt_asym x y : lt x y = true -> lt y x = false.
Proof.
  intros Hxy. destruct (lt y x) eqn:E; [|reflexivity].
  rewrite <- (lt_irrefl x). symmetry. now apply lt_trans with y.
Qed.

Lemma tied_refl a : tied a a.
Proof. split; apply lt_irrefl. Qed.

Lemma tied_sym a b : tied a b -> tied b a.
Proof. intros [? ?]. now split. Qed.

Lemma tied_trans a b c : ok b -> tied a b -> tied b c -> tied a c.
Proof. intros Hb [? ?] [? ?]. split; now apply lt_negative_trans with b. Qed.

Lemma tied_lt_l a b x : ok a -> ok b -> tied a b -> lt a x = lt b x.
Proof.
  intros Ha Hb [Hab Hba].
  destruct (lt a x) eqn:Ea, (lt b x) eqn:Eb; try reflexivity.
  - rewrite (lt_negative_trans a b x Hb Hab Eb) in Ea. discriminate.
  - rewrite (lt_negative_trans b a x Ha Hba Ea) in Eb. discriminate.
Qed.

Lemma insert_perm x l : Permutation (insert lt x l) (x :: l).
Proof.
  induction l as [|y l IH]; simpl; [reflexivity|].
  destruct (lt y x); [|reflexivity].
  rewrite IH. apply perm_swap.
Qed.

Lemma sorted_perm l : Permutation (sorted lt l) l.
Proof.
  induction l as [|x l IH]; simpl; [reflexivity|].
  rewrite insert_perm. now apply perm_skip.
Qed.

Lemma sorted_ok l : Forall ok l -> Forall ok (sorted lt l).
Proof.
  intros Hok. eapply Permutation_Forall; [|exact Hok].
  symmetry. apply sorted_perm.
Qed.

Lemma insert_sorted x s :
  ok x -> Forall ok s ->
  StronglySorted (fun a b => lt b a = false) s ->
  StronglySorted (fun a b => lt b a = false) (insert lt x s).
Proof.
  intros Hx Hok Hs. induction Hs as [|y s Hs IH Hy]; simpl.
  - repeat constructor.
  - inversion Hok as [|? ? Hoky Hoks]; subst.
    destruct (lt y x) eqn:E.
    + constructor; [auto|].
      eapply Permutation_Forall; [symmetry; apply insert_perm|].
      constructor; [now apply lt_asym|exact Hy].
    + constructor; [now constructor|].
      constructor; [exact E|].
      rewrite Forall_forall in *. intros z Hz.
      apply lt_negative_trans with y; auto.
Qed.

Lemma sorted_sorted l :
  Forall ok l -> StronglySorted (fun a b => lt b a = false) (sorted lt l).
Proof.
  induction 1 as [|x l Hx Hl IH]; simpl; [constructor|].
  apply insert_sorted; auto. now apply sorted_ok.
Qed.

Lemma Forall2_tied_refl l : Forall2 tied l l.
Proof. induction l; constructor; auto using tied_refl. Qed.

Lemma Forall2_tied_trans l1 l2 l3 :
  Forall ok l2 -> Forall2 tied l1 l2 -> Forall2 tied l2 l3 -> Forall2 tied l1 l3.
Proof.
  intros Hok H12. revert l3. induction H12 as [|a b l1 l2 Hab _ IH];
    intros l3 H23; inversion H23; subst; constructor;
    inversion Hok; subst.
  - now apply tied_trans with b.
  - now apply IH.
Qed.

Lemma insert_congr x s1 s2 :
  Forall ok s1 -> Forall ok s2 -> Forall2 tied s1 s2 ->
  Forall2 tied (insert lt x s1) (insert lt x s2).
Proof.
  intros H1 H2 Hs. induction Hs as [|a b s1 s2 Hab Hs IH]; simpl.
  - constructor; [apply tied_refl|constructor].
  - inversion H1; inversion H2; subst.
    rewrite (tied_lt_l a b x) by assumption.
    destruct (lt b x); constructor; auto using tied_refl.
Qed.

Lemma insert_swap x y s :
  ok x -> ok y ->
  Forall2 tied (insert lt x (insert lt y s)) (insert lt y (insert lt x s)).
Proof.
  intros Hx Hy. induction s as [|z s IH]; simpl.
  - destruct (lt y x) eqn:Eyx, (lt x y) eqn:Exy; simpl;
      try apply Forall2_tied_refl.
    + rewrite (lt_asym _ _ Eyx) in Exy. discriminate.
    + repeat constructor; assumption.
  - destruct (lt z y) eqn:Ezy, (lt z x) eqn:Ezx; simpl;
      rewrite ?Ezy, ?Ezx.
    + constructor; [apply tied_refl|exact IH].
    + destruct (lt x y) eqn:Exy; simpl; rewrite ?Ezy.
      * apply Forall2_tied_refl.
      * rewrite (lt_negative_trans z x y Hx Ezx Exy) in Ezy. discriminate.
    + destruct (lt y x) eqn:Eyx; simpl; rewrite ?Ezx.
      * apply Forall2_tied_refl.
      * rewrite (lt_negative_trans z y x Hy Ezy Eyx) in Ezx. discriminate.
    + destruct (lt y x) eqn:Eyx, (lt x y) eqn:Exy; simpl;
        rewrite ?Ezy, ?Ezx; try apply Forall2_tied_refl.
      * rewrite (lt_asym _ _ Eyx) in Exy. discriminate.
      * constructor; [now split|]. constructor; [now split|].
        apply Forall2_tied_refl.
Qed.

(** Sorting two arrangements of the same elements gives lists that agree
    position by position up to ties. *)
Lemma sorted_perm_tied l1 l2 :
  Forall ok l1 -> Permutation l1 l2 ->
  Forall2 tied (sorted lt l1) (sorted lt l2).
Proof.
  intros Hok Hp. induction Hp as [|x l1 l2 Hp IH|x y l|l1 l2 l3 Hp1 IH1 Hp2 IH2].
  - constructor.
  - inversion Hok; subst. simpl. apply insert_congr; auto.
    + now apply sorted_ok.
    + apply sorted_ok. eapply Permutation_Forall; eauto.
  - inversion Hok as [|? ? Hy Hok']; subst.
    inversion Hok' as [|? ? Hx Hl]; subst. simpl. now apply insert_swap.
  - assert (Hok2 : Forall ok l2) by (eapply Permutation_Forall; eauto).
    apply Forall2_tied_trans with (sorted lt l2); auto. now apply sorted_ok.
Qed.

End SortFacts.

(* ================================================================== *)
(** * Sorting by float keys and by (distance, cluster) tuples *)

Lemma StronglySorted_weaken {A} (R1 R2 : A -> A -> Prop) (l : list A) :
  (forall a b, In a l -> In b l -> R1 a b -> R2 a b) ->
  StronglySorted R1 l -> StronglySorted R2 l.
Proof.
  intros Himp Hs. induction Hs as [|x l Hs IH Hx]; constructor.
  - apply IH. intros a b Ha Hb. apply Himp; now right.
  - rewrite Forall_forall in *. intros y Hy.
    apply Himp; [now left|now right|auto].
Qed.

Lemma rank_trichotomy x y :
  ~ rank_lt (rank x) (rank y) -> ~ rank_lt (rank y) (rank x) ->
  rank x = rank y.
Proof.
  destruct (rank x) as [[a1 a2] a3], (rank y) as [[b1 b2] b3].
  unfold rank_lt. simpl. intros H1 H2.
  assert (a1 = b1 /\ a2 = b2 /\ a3 = b3) as (-> & -> & ->) by lia.
  reflexivity.
Qed.

Lemma tied_eqb x y :
  not_nan x -> not_nan y ->
  (x <? y)%float = false -> (y <? x)%float = false -> (x =? y)%float = true.
Proof.
  intros Hx Hy Hxy Hyx. apply eqb_rank; try assumption.
  rewrite ltb_false_rank in Hxy, Hyx by assumption.
  now apply rank_trichotomy.
Qed.

Section ByKey.
Context {A : Type} (key : A -> float).

Definition key_lt (a b : A) : bool := (key a <? key b)%float.
Definition key_ok (a : A) : Prop := not_nan (key a).

Lemma key_lt_irrefl x : key_lt x x = false.
Proof. apply ltb_irrefl. Qed.

Lemma key_lt_trans x y z :
  key_lt x y = true -> key_lt y z = true -> key_lt x z = true.
Proof. apply ltb_trans. Qed.

Lemma key_lt_negative_trans x y z :
  key_ok y -> key_lt x y = false -> key_lt y z = false -> key_lt x z = false.
Proof. apply ltb_negative_trans. Qed.

Lemma sorted_by_perm l : Permutation (sorted_by key l) l.
Proof. apply sorted_perm. Qed.


Lemma tied_keys s1 s2 :
  Forall key_ok s1 -> Forall key_ok s2 ->
  Forall2 (tied key_lt) s1 s2 ->
  Forall2 (fun a b => (key a =? key b)%float = true) s1 s2.
Proof.
  intros Hok1 Hok2 Ht. induction Ht as [|a b s1 s2 [Hab Hba] _ IH];
    constructor; inversion Hok1; inversion Hok2; subst; auto.
  now apply tied_eqb.
Qed.

(** Two arrangements of the same records sort to lists whose keys are
    [==] position by position. *)
Lemma sorted_by_perm_keys l1 l2 :
  Forall key_ok l1 -> Permutation l1 l2 ->
  Forall2 (fun a b => (key a =? key b)%float = true)
          (sorted_by key l1) (sorted_by key l2).
Proof.
  intros Hok Hp. apply tied_keys.
  - eapply Permutation_Forall; [symmetry; apply sorted_by_perm|exact Hok].
  - eapply Permutation_Forall; [symmetry; apply sorted_by_perm|].
    eapply Permutation_Forall; eauto.
  - now apply (sorted_perm_tied key_lt key_ok key_lt_irrefl key_lt_trans
                 key_lt_negative_trans).
Qed.

End ByKey.

(** [(a, i) < (b, j)] read through the ranks of the floats. *)
Definition tuple_rank_lt (a b : float * Z) : Prop :=
  rank_lt (rank (fst a)) (rank (fst b)) \/
  (rank (fst a) = rank (fst b) /\ snd a < snd b).

Definition tuple_ok (a : float * Z) : Prop := not_nan (fst a).

Lemma tuple_lt_not_nan a b : tuple_lt a b = true -> tuple_ok a /\ tuple_ok b.
Proof.
  unfold tuple_lt, tuple_ok.
  destruct (fst a =? fst b)%float eqn:E.
  - intros _. rewrite eqb_spec in E. unfold SFeqb in E.
    rewrite !not_nan_spec.
    destruct (Prim2SF (fst a)), (Prim2SF (fst b)); simpl in E;
      try discriminate; split; discriminate.
  - apply ltb_not_nan.
Qed.

Lemma tuple_lt_spec a b :
  tuple_ok a -> tuple_ok b -> (tuple_lt a b = true <-> tuple_rank_lt a b).
Proof.
  unfold tuple_ok, tuple_lt, tuple_rank_lt. intros Ha Hb.
  pose proof (eqb_rank _ _ Ha Hb) as Heq.
  pose proof (ltb_rank _ _ Ha Hb) as Hlt.
  destruct (fst a =? fst b)%float.
  - assert (E : rank (fst a) = rank (fst b)) by now apply Heq.
    rewrite Z.ltb_lt, E. unfold rank_lt. split; [auto|].
    intros [Hr|[_ Hs]]; [lia|exact Hs].
  - rewrite Hlt. split; [auto|]. intros [Hr|[E _]]; [exact Hr|].
    apply Heq in E. discriminate.
Qed.

Lemma tuple_rank_lt_irrefl a : ~ tuple_rank_lt a a.
Proof. unfold tuple_rank_lt, rank_lt. lia. Qed.

Lemma tuple_rank_lt_trans a b c :
  tuple_rank_lt a b -> tuple_rank_lt b c -> tuple_rank_lt a c.
Proof.
  unfold tuple_rank_lt.
  destruct (rank (fst a)) as [[a1 a2] a3], (rank (fst b)) as [[b1 b2] b3],
    (rank (fst c)) as [[c1 c2] c3].
  unfold rank_lt. simpl. rewrite !pair_equal_spec. lia.
Qed.

Lemma tuple_rank_lt_negative_trans a b c :
  ~ tuple_rank_lt a b -> ~ tuple_rank_lt b c -> ~ tuple_rank_lt a c.
Proof.
  unfold tuple_rank_lt.
  destruct (rank (fst a)) as [[a1 a2] a3], (rank (fst b)) as [[b1 b2] b3],
    (rank (fst c)) as [[c1 c2] c3].
  unfold rank_lt. simpl. rewrite !pair_equal_spec. lia.
Qed.

Lemma tuple_lt_irrefl a : tuple_lt a a = false.
Proof.
  destruct (tuple_lt a a) eqn:E; [|reflexivity].
  destruct (tuple_lt_not_nan _ _ E) as [Ha _].
  apply tuple_lt_spec in E; try assumption.
  now apply tuple_rank_lt_irrefl in E.
Qed.

Lemma tuple_lt_trans a b c :
  tuple_lt a b = true -> tuple_lt b c = true -> tuple_lt a c = true.
Proof.
  intros Hab Hbc.
  destruct (tuple_lt_not_nan _ _ Hab) as [Ha Hb].
  destruct (tuple_lt_not_nan _ _ Hbc) as [_ Hc].
  rewrite tuple_lt_spec in * by assumption.
  now apply tuple_rank_lt_trans with b.
Qed.

Lemma tuple_lt_false a b :
  tuple_ok a -> tuple_ok b -> (tuple_lt a b = false <-> ~ tuple_rank_lt a b).
Proof.
  intros Ha Hb. rewrite <- tuple_lt_spec by assumption.
  destruct (tuple_lt a b); split; congruence.
Qed.

Lemma tuple_lt_negative_trans a b c :
  tuple_ok b ->
  tuple_lt a b = false -> tuple_lt b c = false -> tuple_lt a c = false.
Proof.
  intros Hb Hab Hbc.
  destruct (tuple_lt a c) eqn:E; [|reflexivity].
  destruct (tuple_lt_not_nan _ _ E) as [Ha Hc].
  rewrite tuple_lt_false in Hab, Hbc by assumption.
  rewrite tuple_lt_spec in E by assumption.
  exfalso. revert E. now apply tuple_rank_lt_negative_trans with b.
Qed.

(** A sorted list of (distance, cluster) tuples is ascending in the
    distance. *)
Lemma sorted_tuples_ascending (l : list (float * Z)) :
  Forall tuple_ok l ->
  StronglySorted (fun a b => (fst a <=? fst b)%float = true)
                 (sorted tuple_lt l).
Proof.
  intros Hok.
  pose proof (sorted_sorted tuple_lt tuple_ok tuple_lt_irrefl tuple_lt_trans
                tuple_lt_negative_trans l Hok) as Hs.
  assert (Hok' : Forall tuple_ok (sorted tuple_lt l)).
  { eapply Permutation_Forall; [symmetry; apply sorted_perm|exact Hok]. }
  rewrite Forall_forall in Hok'.
  eapply StronglySorted_weaken; [|exact Hs]. simpl.
  intros a b Ha Hb Hlt. apply leb_rank; try (now apply Hok').
  apply tuple_lt_false in Hlt; try (now apply Hok').
  intros Hr. apply Hlt. now left.
Qed.

(* ================================================================== *)
(** * Candidate selection *)

Lemma defaultdict_getitem_spec d c :
  fst (defaultdict_getitem d c) = list_of d c /\
  forall c', list_of (snd (defaultdict_getitem d c)) c' = list_of d c'.
Proof.
  unfold list_of, defaultdict_getitem.
  split; [now destruct (dict_get d c)|]. intros c'.
  destruct (dict_get d c) eqn:G; simpl; [reflexivity|].
  destruct (Z.eq_dec c c') as [<-|Hne].
  - rewrite dict_get_set_same, G. reflexivity.
  - rewrite dict_get_set_other by assumption.
    destruct (dict_get d c'); reflexivity.
Qed.

Lemma list_of_ext d d' cs :
  (forall c, list_of d' c = list_of d c) ->
  map (list_of d') cs = map (list_of d) cs.
Proof. intros E. apply map_ext. intros c. apply E. Qed.

Lemma lookup_lists_spec d cs :
  fst (lookup_lists d cs) = map (list_of d) cs /\
  forall c, list_of (snd (lookup_lists d cs)) c = list_of d c.
Proof.
  revert d. induction cs as [|o cs IH]; intros d; simpl; [auto|].
  destruct (defaultdict_getitem_spec d o) as [Hl Hd].
  destruct (defaultdict_getitem d o) as [l d1]. simpl in Hl, Hd.
  destruct (IH d1) as [Hls Hd2].
  destruct (lookup_lists d1 cs) as [ls d2]. simpl in *. split.
  - rewrite Hl, Hls. f_equal. now apply list_of_ext.
  - intros c. now rewrite Hd2.
Qed.

(** The candidates after [j] of the clusters [cs] were appended to
    [start]. *)
Definition appended (d : dict Z (list Z)) (start : list Z) (cs : list Z)
  (j : nat) : list Z :=
  start ++ concat (map (list_of d) (firstn j cs)).

Lemma extend_candidates_spec k remaining start d0 d :
  (forall c, list_of d c = list_of d0 c) ->
  exists j,
    (j <= length remaining)%nat /\
    fst (extend_candidates k remaining start d)
      = appended d0 start (map snd remaining) j /\
    (j = length remaining \/
     k * 2 <= len (fst (extend_candidates k remaining start d))) /\
    (forall j', (0 < j' < j)%nat ->
                len (appended d0 start (map snd remaining) j') < k * 2).
Proof.
  unfold appended.
  revert start d. induction remaining as [|[dist c] rest IH]; intros start d Hd.
  - exists 0%nat. simpl. rewrite app_nil_r. repeat split; auto. lia.
  - simpl. destruct (defaultdict_getitem_spec d c) as [Hl Hd1].
    destruct (defaultdict_getitem d c) as [l d1]. simpl in Hl, Hd1.
    assert (El : l = list_of d0 c) by now rewrite Hl, Hd.
    destruct (len (start ++ l) >=? k * 2) eqn:E.
    + exists 1%nat. simpl. rewrite app_nil_r, <- El.
      repeat split; lia.
    + destruct (IH (start ++ l) d1) as (j & Hj & Hfst & Hstop & Hbefore).
      { intros c'. now rewrite Hd1. }
      exists (S j). simpl. rewrite Hfst, <- El, <- app_assoc.
      repeat split; try lia.
      * destruct Hstop as [->|Hstop]; [now left|right].
        rewrite Hfst, <- app_assoc in Hstop. exact Hstop.
      * intros [|j'] Hj'; [lia|]. simpl. rewrite app_assoc.
        destruct j' as [|j''].
        -- simpl. rewrite app_nil_r, <- El. lia.
        -- rewrite <- El. apply Hbefore. lia.
Qed.

(* ================================================================== *)
(** * Sorting with a key that may raise *)

Lemma mapM_returns {A B} (f : A -> outcome B) (l : list A) :
  (forall x, In x l -> exists y, f x = Return y) ->
  exists ys, mapM f l = Return ys.
Proof.
  induction l as [|x l IH]; intros Hf; simpl; [now exists []|].
  destruct (Hf x) as (y & ->); [now left|].
  destruct IH as (ys & ->); [intros z Hz; apply Hf; now right|].
  now exists (y :: ys).
Qed.

Lemma mapM_Return_In {A B} (f : A -> outcome B) (l : list A) (ys : list B) :
  mapM f l = Return ys -> forall x, In x l -> exists y, f x = Return y.
Proof.
  revert ys. induction l as [|a l IH]; intros ys Hm x Hin; [destruct Hin|].
  simpl in Hm. destruct (f a) as [y|e] eqn:Ea; [|discriminate].
  destruct (mapM f l) as [ys'|e] eqn:El; [|discriminate].
  destruct Hin as [<-|Hin]; [eauto|]. now apply (IH ys').
Qed.

Lemma mapM_raises {A B} (f : A -> outcome B) (l : list A) (x : A) (e0 : exn) :
  (forall y e, f y = Raise e -> e = e0) ->
  In x l -> f x = Raise e0 -> mapM f l = Raise e0.
Proof.
  intros Honly Hin Hx. induction l as [|y l IH]; [destruct Hin|]. simpl.
  destruct (f y) as [b|e] eqn:Ey.
  - destruct Hin as [->|Hin]; [congruence|]. now rewrite IH.
  - now rewrite (Honly y e Ey).
Qed.

Lemma map_snd_combine {A B} (a : list A) (b : list B) :
  length a = length b -> map snd (combine a b) = b.
Proof.
  revert b. induction a as [|x a IH]; intros [|y b] Hl; simpl in *;
    try discriminate; [reflexivity|]. f_equal. apply IH. lia.
Qed.

Section SortedKey.
Context {A : Type}.

Lemma insert_decorate (d : A -> float) (x : A) (l : list A) :
  insert (fun a b => (fst a <? fst b)%float) (d x, x)
         (map (fun y => (d y, y)) l)
  = map (fun y => (d y, y)) (insert (fun a b => (d a <? d b)%float) x l).
Proof.
  induction l as [|y l IH]; simpl; [reflexivity|].
  destruct (d y <? d x)%float; simpl; [now rewrite IH|reflexivity].
Qed.

Lemma sorted_decorate (d : A -> float) (l : list A) :
  sorted (fun a b => (fst a <? fst b)%float) (map (fun y => (d y, y)) l)
  = map (fun y => (d y, y)) (sorted_by d l).
Proof.
  unfold sorted_by, sorted. induction l as [|x l IH]; simpl; [reflexivity|].
  rewrite IH. apply insert_decorate.
Qed.

(** With a key that returns on every element, [sorted] orders the
    elements by the values returned. *)
Lemma sorted_key_total (key : A -> outcome float) (d : A -> float)
  (l : list A) :
  (forall x, In x l -> key x = Return (d x)) ->
  sorted_key key l = Return (sorted_by d l).
Proof.
  intros Hk. unfold sorted_key. rewrite (mapM_total key d l Hk).
  cbn [bind].
  replace (combine (map d l) l) with (map (fun y => (d y, y)) l).
  - rewrite sorted_decorate, map_map. cbn [snd]. now rewrite map_id.
  - clear. induction l as [|x l IH]; simpl; [reflexivity|]. now rewrite IH.
Qed.

Lemma sorted_key_perm (key : A -> outcome float) (l r : list A) :
  sorted_key key l = Return r -> Permutation r l.
Proof.
  unfold sorted_key. destruct (mapM key l) as [ks|e] eqn:E; [|discriminate].
  cbn [bind]. intros [= <-].
  apply mapM_Return_Forall2, Forall2_length in E.
  rewrite <- (map_snd_combine ks l) at 2 by now symmetry.
  apply Permutation_map, sorted_perm.
Qed.

Lemma sorted_key_returns (key : A -> outcome float) (l : list A) :
  (forall x, In x l -> exists d, key x = Return d) ->
  exists r, sorted_key key l = Return r.
Proof.
  intros Hk. unfold sorted_key.
  destruct (mapM_returns key l Hk) as (ks & ->). cbn [bind]. eauto.
Qed.

End SortedKey.

(* ================================================================== *)
(** * The cosine distance *)

(** The distance as the specification writes it,
    1 - (a.b) / (|a| |b| + 1e-8): [dot_product] is the sum of the products
    of the components, [magnitude] the square root of the sum of the
    squares. *)
Definition dot_product (a b : vector) : float :=
  fold_left (fun acc p => (acc + fst p * snd p)%float) (combine a b) 0%float.

Definition magnitude (a : vector) : float := PrimFloat.sqrt (dot_product a a).

Definition cosine_distance (a b : vector) : float :=
  (1 - dot_product a b / (magnitude a * magnitude b + 1e-8))%float.

(** [vers] computes it on two vectors of one length, and raises on any
    other pair. *)
Lemma vers_cosine a b :
  len a = len b -> vers a b = Return (cosine_distance a b).
Proof. intros E. unfold vers, Np.dot. now rewrite E, Z.eqb_refl. Qed.

Lemma vers_Return a b d :
  vers a b = Return d -> len a = len b /\ d = cosine_distance a b.
Proof.
  unfold vers, Np.dot. destruct (len a =? len b) eqn:E; cbn [bind];
    [|discriminate].
  intros [= <-]. split; [now apply Z.eqb_eq|reflexivity].
Qed.

Lemma vers_raises a b e :
  vers a b = Raise e -> len a <> len b /\ exists msg, e = ValueError msg.
Proof.
  unfold vers, Np.dot. destruct (len a =? len b) eqn:E; cbn [bind];
    [discriminate|].
  intros [= <-]. split; [now apply Z.eqb_neq|eauto].
Qed.

(** Every cluster id with the cosine distance of its centroid from the
    query. *)
Definition centroid_table (self : IVFIndex) (query_vector : vector)
  : list (float * Z) :=
  map (fun o => (cosine_distance (snd o) query_vector, fst o))
      (Fastcore.enumerate (centroids self)).

Lemma enumerate_snd {A} (l : list A) : map snd (Fastcore.enumerate l) = l.
Proof.
  unfold Fastcore.enumerate. apply map_snd_combine.
  now rewrite length_map, length_seq.
Qed.

Lemma In_enumerate {A} (l : list A) (o : Z * A) :
  In o (Fastcore.enumerate l) -> In (snd o) l.
Proof.
  intros Ho. rewrite <- (enumerate_snd l). now apply in_map.
Qed.

Lemma centroid_distances_aligned self q :
  Forall (fun c => len c = len q) (centroids self) ->
  centroid_distances self q = Return (sorted tuple_lt (centroid_table self q)).
Proof.
  intros Hlen. unfold centroid_distances, centroid_table.
  rewrite (mapM_total _ (fun o => (cosine_distance (snd o) q, fst o)));
    [reflexivity|].
  intros o Ho. rewrite vers_cosine; [reflexivity|].
  rewrite Forall_forall in Hlen. now apply Hlen, In_enumerate.
Qed.

Lemma centroid_distances_Return self q cd :
  centroid_distances self q = Return cd ->
  Forall (fun c => len c = len q) (centroids self) /\
  cd = sorted tuple_lt (centroid_table self q).
Proof.
  intros Hcd.
  assert (Hlen : Forall (fun c => len c = len q) (centroids self)).
  { unfold centroid_distances in Hcd.
    destruct (mapM _ (Fastcore.enumerate (centroids self))) as [ds|e] eqn:E;
      [|discriminate].
    apply Forall_forall. intros c Hc.
    rewrite <- (enumerate_snd (centroids self)) in Hc.
    apply in_map_iff in Hc. destruct Hc as (o & <- & Ho).
    destruct (mapM_Return_In _ _ _ E o Ho) as (y & Hy).
    destruct (vers (snd o) q) as [d|e] eqn:Ev; [|discriminate].
    now apply vers_Return in Ev. }
  split; [exact Hlen|].
  rewrite (centroid_distances_aligned self q Hlen) in Hcd. now injection Hcd.
Qed.

Lemma centroid_distances_raises self q e :
  centroid_distances self q = Raise e -> exists msg, e = ValueError msg.
Proof.
  unfold centroid_distances.
  destruct (mapM _ (Fastcore.enumerate (centroids self))) as [ds|e'] eqn:E;
    [discriminate|].
  cbn [bind]. intros [= <-]. revert E.
  induction (Fastcore.enumerate (centroids self)) as [|o l IH]; simpl;
    [discriminate|].
  destruct (vers (snd o) q) as [d|e1] eqn:Ev; cbn [bind].
  - destruct (mapM _ l) as [ds|e2]; [discriminate|].
    intros [= <-]. now apply IH.
  - intros [= <-]. now apply vers_raises in Ev.
Qed.

Lemma centroid_table_perm self q :
  Permutation (sorted tuple_lt (centroid_table self q)) (centroid_table self q).
Proof. apply sorted_perm. Qed.

Lemma centroid_table_ascending self q :
  Forall (fun c => not_nan (cosine_distance c q)) (centroids self) ->
  StronglySorted (fun a b => (fst a <=? fst b)%float = true)
                 (sorted tuple_lt (centroid_table self q)).
Proof.
  intros Hok. apply sorted_tuples_ascending.
  apply Forall_forall. intros a Ha. apply in_map_iff in Ha.
  destruct Ha as ([i c] & <- & Hin). unfold tuple_ok. simpl.
  rewrite Forall_forall in Hok. apply Hok.
  now apply In_enumerate in Hin.
Qed.

(* ================================================================== *)
(** * The shape of a search *)

Lemma search_built self q k cd :
  is_built self = true ->
  centroid_distances self q = Return cd ->
  search q k self
  = (results <- mapM (fun id => get id (storage self))
                     (fst (candidates self cd k)) ;;
     ranked <- sorted_key (fun o => dist_func self q (fst o)) results ;;
     Return (slice_to k ranked),
     set_inverted_lists self (snd (candidates self cd k))).
Proof.
  intros Hb Hcd. unfold search. rewrite Hb, Hcd. simpl.
  now destruct (candidates self cd k) as [ids il].
Qed.

Lemma search_misaligned self q k e :
  is_built self = true ->
  centroid_distances self q = Raise e ->
  search q k self = (Raise e, self).
Proof. intros Hb Hcd. unfold search. now rewrite Hb, Hcd. Qed.

(** The clusters in the order [search] visits them, split at [nprobe];
    [cd] is the sorted list of (distance, cluster id) pairs. *)
Definition probe_order (cd : list (float * Z)) : list Z := map snd cd.

Definition near_clusters (self : IVFIndex) (cd : list (float * Z)) : list Z :=
  firstn (Z.to_nat (nprobe self)) (probe_order cd).

Definition remaining_clusters (self : IVFIndex) (cd : list (float * Z))
  : list Z :=
  skipn (Z.to_nat (nprobe self)) (probe_order cd).

(** The ids in the lists of the [nprobe] nearest clusters. *)
Definition initial_candidates (self : IVFIndex) (cd : list (float * Z))
  : list Z :=
  concat (map (list_of (inverted_lists self)) (near_clusters self cd)).

(** The initial candidates plus the lists of the first [j] remaining
    clusters. *)
Definition pulled (self : IVFIndex) (cd : list (float * Z)) (j : nat)
  : list Z :=
  appended (inverted_lists self) (initial_candidates self cd)
           (remaining_clusters self cd) j.

Lemma candidates_initial self cd k :
  0 <= nprobe self ->
  k <= len (initial_candidates self cd) ->
  candidates self cd k
  = (initial_candidates self cd,
     snd (lookup_lists (inverted_lists self) (near_clusters self cd))).
Proof.
  intros Hn Hk. unfold candidates, slice_to.
  destruct (nprobe self <? 0) eqn:E; [apply Z.ltb_lt in E; lia|].
  rewrite <- firstn_map. fold (probe_order cd). fold (near_clusters self cd).
  destruct (lookup_lists_spec (inverted_lists self) (near_clusters self cd))
    as [Hfst _].
  destruct (lookup_lists _ _) as [lists il]. simpl in *. subst lists.
  fold (initial_candidates self cd).
  destruct (len (initial_candidates self cd) <? k) eqn:E'; [|reflexivity].
  apply Z.ltb_lt in E'. lia.
Qed.

Lemma candidates_fallback self cd k :
  0 <= nprobe self ->
  len (initial_candidates self cd) < k ->
  exists j,
    (j <= length (remaining_clusters self cd))%nat /\
    fst (candidates self cd k) = pulled self cd j /\
    (j = length (remaining_clusters self cd) \/
     k * 2 <= len (fst (candidates self cd k))) /\
    (forall j', (j' < j)%nat -> len (pulled self cd j') < k * 2).
Proof.
  intros Hn Hk. unfold candidates, slice_to, slice_from, pulled.
  destruct (nprobe self <? 0) eqn:E; [apply Z.ltb_lt in E; lia|].
  rewrite <- firstn_map. fold (probe_order cd). fold (near_clusters self cd).
  destruct (lookup_lists_spec (inverted_lists self) (near_clusters self cd))
    as [Hfst Hd].
  destruct (lookup_lists _ _) as [lists il]. simpl in *. subst lists.
  fold (initial_candidates self cd).
  destruct (len (initial_candidates self cd) <? k) eqn:E';
    [|apply Z.ltb_ge in E'; lia].
  destruct (extend_candidates_spec k
              (skipn (Z.to_nat (nprobe self)) cd)
              (initial_candidates self cd) (inverted_lists self) il Hd)
    as (j & Hj & Hfst & Hstop & Hbefore).
  rewrite <- skipn_map in Hfst, Hbefore.
  rewrite <- (length_map snd), <- skipn_map in Hj, Hstop.
  fold (probe_order cd) in *. fold (remaining_clusters self cd) in *.
  exists j. repeat split; try assumption.
  intros [|j'] Hj'; [|apply Hbefore; lia].
  unfold appended. simpl. rewrite app_nil_r.
  assert (0 <= len (initial_candidates self cd)) by (unfold len; lia). lia.
Qed.

(** C3.  On a built index whose centroids have the query's length (none
    of the distances NaN), [search] computes the list [cd] that holds
    every cluster id with the cosine distance of its centroid from the
    query, in ascending order of the distance, and resolves and ranks the
    ids [candidates] draws from it.  When the lists of the [nprobe]
    nearest clusters hold at least [k] ids, these are the candidates and
    no other cluster is read; when they hold fewer, the lists of the
    remaining clusters are appended one by one in that order, and the
    loop stops after the first cluster that brings the count to [2 * k],
    or when no cluster is left. *)
Theorem fallback_rule (self : IVFIndex) (query_vector : vector) (k : Z) :
  is_built self = true ->
  0 <= nprobe self ->
  Forall (fun c => len c = len query_vector) (centroids self) ->
  Forall (fun c => not_nan (cosine_distance c query_vector)) (centroids self) ->
  exists cd,
    centroid_distances self query_vector = Return cd /\
    Permutation cd
      (map (fun o => (cosine_distance (snd o) query_vector, fst o))
           (Fastcore.enumerate (centroids self))) /\
    StronglySorted (fun a b => (fst a <=? fst b)%float = true) cd /\
    search query_vector k self
      = (results <- mapM (fun id => get id (storage self))
                         (fst (candidates self cd k)) ;;
         ranked <- sorted_key (fun o => dist_func self query_vector (fst o))
                              results ;;
         Return (slice_to k ranked),
         set_inverted_lists self (snd (candidates self cd k))) /\
    probe_order cd = near_clusters self cd ++ remaining_clusters self cd /\
    (k <= len (initial_candidates self cd) ->
     candidates self cd k
     = (initial_candidates self cd,
        snd (lookup_lists (inverted_lists self) (near_clusters self cd)))) /\
    (len (initial_candidates self cd) < k ->
     exists j,
       (j <= length (remaining_clusters self cd))%nat /\
       fst (candidates self cd k) = pulled self cd j /\
       (j = length (remaining_clusters self cd) \/
        k * 2 <= len (pulled self cd j)) /\
       (forall j', (j' < j)%nat -> len (pulled self cd j') < k * 2)).
Proof.
  intros Hb Hn Hlen Hok.
  pose proof (centroid_distances_aligned self query_vector Hlen) as Hcd.
  exists (sorted tuple_lt (centroid_table self query_vector)).
  split; [exact Hcd|].
  split; [apply centroid_table_perm|].
  split; [now apply centroid_table_ascending|].
  split; [now apply search_built|].
  split; [symmetry; apply firstn_skipn|].
  split; [now apply candidates_initial|].
  intros Hk. destruct (candidates_fallback self _ k Hn Hk)
    as (j & Hj & Hfst & Hstop & Hbefore).
  exists j. rewrite <- Hfst. auto.
Qed.

(* ================================================================== *)
(** * Resolving and ranking *)

(** The (vector, metadata) pair [storage.get(id)] returns for a live id. *)
Definition resolved (s : VectorStorage) (id : Z) : vector * json :=
  match get id s with
  | Return r => r
  | Raise _ => ([], JNull)
  end.

Lemma get_live s id :
  store_wf s -> In id (keys (vectors s)) ->
  get id s = Return (resolved s id) /\ In (fst (resolved s id)) (values (vectors s)).
Proof.
  intros [Hwf Hk] Hin. unfold resolved, get, getitem.
  destruct (dict_get (vectors s) id) as [v|] eqn:Gv.
  - destruct (dict_get (metadatas s) id) as [m|] eqn:Gm; simpl.
    + split; [reflexivity|]. apply dict_get_In in Gv.
      change v with (snd (id, v)). now apply in_map.
    + apply dict_get_None in Gm. rewrite Hk in Gm. contradiction.
  - apply dict_get_None in Gv. contradiction.
Qed.

Lemma resolve_live s ids :
  store_wf s -> incl ids (keys (vectors s)) ->
  mapM (fun id => get id s) ids = Return (map (resolved s) ids).
Proof.
  intros Hwf Hin. apply mapM_total. intros id Hid.
  now apply get_live; [|apply Hin].
Qed.

Lemma slice_to_firstn {A} k (l : list A) :
  0 <= k -> slice_to k l = firstn (Z.to_nat k) l.
Proof.
  intros Hk. unfold slice_to. destruct (k <? 0) eqn:E; [|reflexivity].
  apply Z.ltb_lt in E. lia.
Qed.



(** Every candidate comes out of an inverted list. *)
Lemma list_of_indexed d c x :
  In x (list_of d c) -> In x (concat (values d)).
Proof.
  unfold list_of.
  destruct (dict_get d c) as [l|] eqn:G; simpl; [|tauto].
  intros Hx. apply in_concat. exists l. split; [|exact Hx].
  apply dict_get_In in G. now apply (in_map snd) in G.
Qed.

Lemma concat_map_indexed d cs x :
  In x (concat (map (list_of d) cs)) -> In x (concat (values d)).
Proof.
  intros Hx. apply in_concat in Hx. destruct Hx as (l & Hl & Hx).
  apply in_map_iff in Hl. destruct Hl as (c & <- & _).
  now apply list_of_indexed with c.
Qed.

Lemma candidates_indexed self cd k x :
  In x (fst (candidates self cd k)) ->
  In x (concat (values (inverted_lists self))).
Proof.
  unfold candidates.
  destruct (lookup_lists_spec (inverted_lists self)
              (map snd (slice_to (nprobe self) cd))) as [Hf Hd].
  destruct (lookup_lists _ _) as [lists il]. simpl in Hf, Hd. subst lists.
  destruct (len _ <? k).
  - destruct (extend_candidates_spec k (slice_from (nprobe self) cd)
                (concat (map (list_of (inverted_lists self))
                             (map snd (slice_to (nprobe self) cd))))
                (inverted_lists self) il Hd) as (j & _ & -> & _).
    unfold appended. intros Hx. apply in_app_or in Hx.
    destruct Hx as [Hx|Hx]; eapply concat_map_indexed; exact Hx.
  - simpl. apply concat_map_indexed.
Qed.


(** The notebook's distance cells: the three distances it prints for
    [v1], [v2], [v3] against the query. *)
Example vers_notebook_values :
  (vers [1%float; 0%float; 0%float] [0.7%float; 0.7%float; 0%float],
   vers [0%float; 1%float; 0%float] [0.7%float; 0.7%float; 0%float],
   vers [(-0.5)%float; (-0.5)%float; 0%float] [0.7%float; 0.7%float; 0%float])
  = (Return 0.2928932259563096%float, Return 0.2928932259563096%float,
     Return 1.9999999857142858%float).
Proof. vm_compute. reflexivity. Qed.

Example euclidean_notebook_values :
  (euclidean [1%float; 0%float; 0%float] [0.7%float; 0.7%float; 0%float],
   euclidean [(-0.5)%float; (-0.5)%float; 0%float]
             [0.7%float; 0.7%float; 0%float])
  = (Return 0.7615773105863908%float, Return 1.697056274847714%float).
Proof. vm_compute. reflexivity. Qed.

(** Vectors whose lengths do not fit: [np.dot] raises and so do [vers] and
    [neg_dot]; [a - b] broadcasts a vector of length 1 and raises
    otherwise. *)
Example misaligned_vectors :
  vers [1%float; 0%float; 0%float] [0.7%float; 0.7%float]
    = Raise (ValueError "shapes (3,) and (2,) not aligned: 3 (dim 0) != 2 (dim 0)") /\
  neg_dot [1%float] [0.7%float; 0.7%float]
    = Raise (ValueError "shapes (1,) and (2,) not aligned: 1 (dim 0) != 2 (dim 0)") /\
  euclidean [1%float; 0%float; 0%float] [0.7%float; 0.7%float]
    = Raise (ValueError
               "operands could not be broadcast together with shapes (3,) (2,) ") /\
  euclidean [1%float] [1%float; 1%float] = Return 0%float.
Proof. repeat split; vm_compute; reflexivity. Qed.

(* ================================================================== *)
(** * Probing every cluster *)

(** The reference the spec compares [search] with: a scan that ranks the
    record of every stored vector by the configured metric, ascending, and
    keeps the first [k]. *)
Definition brute_force_search (query_vector : vector) (k : Z) (self : IVFIndex)
  : outcome (list (vector * json)) :=
  all <- get_all (storage self) ;;
  ranked <- sorted_key (fun o => dist_func self query_vector (fst o))
                       (map (fun r => (snd (fst r), snd r)) all) ;;
  Return (slice_to k ranked).

(** The (vector, metadata) records of a store, in the order of its ids. *)
Definition stored_records (s : VectorStorage) : list (vector * json) :=
  map (resolved s) (keys (vectors s)).

Lemma map_snd_combine_incl {A B} (a : list A) (b : list B) :
  incl (map snd (combine a b)) b.
Proof.
  intros y Hy. apply in_map_iff in Hy. destruct Hy as ([x y'] & <- & Hin).
  now apply in_combine_r in Hin.
Qed.

Lemma keys_set_In {V} (d : dict Z V) k v k' :
  In k' (keys (dict_set d k v)) -> k' = k \/ In k' (keys d).
Proof.
  unfold keys. induction d as [|[k0 v0] d IH]; simpl.
  - intros [<-|[]]. now left.
  - destruct (k0 =? k); simpl; intros [<-|Hin]; auto.
    destruct (IH Hin); auto.
Qed.

Lemma fold_assign_keys ps maps c :
  In c (keys (fst (fold_left assign ps maps))) ->
  In c (keys (fst maps)) \/ In c (map snd ps).
Proof.
  revert maps. induction ps as [|[id c'] ps IH]; intros maps Hin; [now left|].
  cbn [fold_left] in Hin. apply IH in Hin. destruct Hin as [Hin|Hin].
  - rewrite assign_fst in Hin. apply keys_set_In in Hin.
    destruct Hin as [->|Hin]; [right; now left|now left].
  - right. now right.
Qed.

Lemma list_of_nil c : list_of [] c = [].
Proof. reflexivity. Qed.

Lemma list_of_cons_same c l d : list_of ((c, l) :: d) c = l.
Proof. unfold list_of. simpl. now rewrite Z.eqb_refl. Qed.

Lemma list_of_cons_other c c' l d :
  c <> c' -> list_of ((c, l) :: d) c' = list_of d c'.
Proof.
  intros Hne. unfold list_of. simpl.
  apply Z.eqb_neq in Hne. now rewrite Hne.
Qed.

(** Reading the list of every cluster, in any order, yields the ids of
    all the lists. *)
Lemma concat_lists_perm (d : dict Z (list Z)) (order : list Z) :
  dict_wf d -> NoDup order -> incl (keys d) order ->
  Permutation (concat (map (list_of d) order)) (concat (values d)).
Proof.
  revert order. induction d as [|[c l] d IH]; intros order Hwf Hnd Hincl.
  - simpl. clear. induction order as [|o order IH]; simpl; [constructor|exact IH].
  - unfold dict_wf in Hwf. simpl in Hwf.
    inversion Hwf as [|? ? Hc Hwf']; subst.
    destruct (in_split c order) as (o1 & o2 & ->); [apply Hincl; now left|].
    pose proof (NoDup_remove_1 _ _ _ Hnd) as Hnd'.
    pose proof (NoDup_remove_2 _ _ _ Hnd) as Hc'.
    rewrite map_app, concat_app. simpl.
    rewrite list_of_cons_same, Permutation_app_swap_app.
    apply Permutation_app_head. rewrite <- concat_app, <- map_app.
    rewrite (map_ext_in (list_of ((c, l) :: d)) (list_of d)).
    + apply IH; [exact Hwf'|exact Hnd'|].
      intros c' Hin. assert (Hor : In c' (o1 ++ c :: o2))
        by (apply Hincl; now right).
      apply in_app_or in Hor. apply in_or_app.
      destruct Hor as [?|[->|?]]; auto. contradiction.
    + intros c' Hin. apply list_of_cons_other. intros ->. contradiction.
Qed.

Lemma enumerate_indices {A} (l : list A) :
  map fst (Fastcore.enumerate l) = map Z.of_nat (seq 0 (length l)).
Proof.
  unfold Fastcore.enumerate. apply map_fst_combine.
  now rewrite length_map, length_seq.
Qed.

Lemma probe_order_perm self q cd :
  centroid_distances self q = Return cd ->
  Permutation (probe_order cd)
              (map Z.of_nat (seq 0 (length (centroids self)))).
Proof.
  intros Hcd. apply centroid_distances_Return in Hcd. destruct Hcd as [_ ->].
  unfold probe_order. rewrite centroid_table_perm. unfold centroid_table.
  rewrite map_map. simpl. now rewrite <- enumerate_indices.
Qed.

Lemma probe_order_NoDup self q cd :
  centroid_distances self q = Return cd -> NoDup (probe_order cd).
Proof.
  intros Hcd.
  eapply Permutation_NoDup; [symmetry; eapply probe_order_perm, Hcd|].
  apply Finite.Injective_map_NoDup; [|apply seq_NoDup].
  intros a b. apply Nat2Z.inj.
Qed.

Lemma candidates_all_clusters self q cd k :
  centroid_distances self q = Return cd ->
  len (centroids self) <= nprobe self ->
  fst (candidates self cd k)
  = concat (map (list_of (inverted_lists self)) (probe_order cd)).
Proof.
  intros Hcd Hn.
  assert (Hlen : (length cd <= Z.to_nat (nprobe self))%nat).
  { rewrite <- (length_map snd). fold (probe_order cd).
    rewrite (Permutation_length (probe_order_perm self q cd Hcd)).
    rewrite length_map, length_seq. unfold len in Hn. lia. }
  unfold candidates, slice_to, slice_from.
  destruct (nprobe self <? 0) eqn:E;
    [apply Z.ltb_lt in E; unfold len in Hn; lia|].
  rewrite firstn_all2, skipn_all2 by assumption.
  fold (probe_order cd).
  destruct (lookup_lists_spec (inverted_lists self) (probe_order cd))
    as [Hfst _].
  destruct (lookup_lists _ _) as [lists il]. simpl in *. subst lists.
  now destruct (_ <? k).
Qed.

Lemma Forall2_firstn {A B} (R : A -> B -> Prop) n l1 l2 :
  Forall2 R l1 l2 -> Forall2 R (firstn n l1) (firstn n l2).
Proof.
  intros H. revert n. induction H; intros [|n]; simpl; constructor; auto.
Qed.

Lemma In_firstn {A} (x : A) n l : In x (firstn n l) -> In x l.
Proof.
  intros Hin. rewrite <- (firstn_skipn n l). apply in_or_app. now left.
Qed.

Lemma Forall2_eq_In {A} (R : A -> A -> Prop) (l1 l2 : list A) :
  Forall2 R l1 l2 ->
  (forall a b, In a l1 -> In b l2 -> R a b -> a = b) ->
  l1 = l2.
Proof.
  induction 1 as [|a b l1 l2 Hab _ IH]; intros Heq; [reflexivity|].
  f_equal.
  - apply Heq; auto; now left.
  - apply IH. intros x y Hx Hy. apply Heq; now right.
Qed.

Lemma get_all_records s all :
  get_all s = Return all ->
  map (fun r => (snd (fst r), snd r)) all = stored_records s.
Proof.
  intros Hall. unfold stored_records.
  rewrite <- (get_all_ids _ _ Hall), map_map.
  apply map_ext_in. intros r Hr. unfold resolved.
  now rewrite (get_all_resolve _ _ Hall r Hr).
Qed.

Section Exhaustive.
Variable fit_predict : Z -> Z -> list vector -> list vector * list Z.

(** On a freshly built index, the lists of all the clusters hold the ids
    of the store. *)
Lemma all_lists_perm self rep built q cd :
  store_wf (storage self) ->
  build fit_predict self = (Return rep, built) ->
  length (snd (run_kmeans fit_predict (values (vectors (storage self)))))
    = length (vectors (storage self)) ->
  Forall (fun p => 0 <= p < len (fst (run_kmeans fit_predict
                                       (values (vectors (storage self))))))
         (snd (run_kmeans fit_predict (values (vectors (storage self))))) ->
  centroid_distances built q = Return cd ->
  Permutation (concat (map (list_of (inverted_lists built)) (probe_order cd)))
              (keys (vectors (storage self))).
Proof.
  intros Hwf Hb Hlen Hrange Hcd.
  destruct (built_maps_partition fit_predict self rep built (proj1 Hwf) Hb)
    as [Hlw Hperm _ _ _]; [lia|]. simpl in Hlw, Hperm.
  apply build_inv in Hb.
  destruct Hb as (all & cs & preds & Hall & _ & Hkm & Hbuilt & _).
  rewrite (get_all_vectors _ _ (proj1 Hwf) Hall) in Hkm.
  rewrite Hkm in Hrange. simpl in Hrange.
  rewrite <- Hperm. apply concat_lists_perm; try assumption.
  - eapply probe_order_NoDup, Hcd.
  - intros c Hc.
    eapply Permutation_in; [symmetry; eapply probe_order_perm, Hcd|].
    assert (Hpred : In c preds).
    { subst built. simpl in Hc. apply fold_assign_keys in Hc.
      destruct Hc as [[]|Hc]. eapply map_snd_combine_incl, Hc. }
    rewrite Forall_forall in Hrange. specialize (Hrange c Hpred).
    replace (centroids built) with cs by (now subst built).
    apply in_map_iff. exists (Z.to_nat c). split; [lia|].
    apply in_seq. unfold len in Hrange. lia.
Qed.

(** With [nprobe] at least the number of centroids, the candidates of a
    freshly built index are the ids of the store, in some order. *)
Lemma candidates_exhaustive self rep built q cd k :
  store_wf (storage self) ->
  build fit_predict self = (Return rep, built) ->
  length (snd (run_kmeans fit_predict (values (vectors (storage self)))))
    = length (vectors (storage self)) ->
  Forall (fun p => 0 <= p < len (fst (run_kmeans fit_predict
                                       (values (vectors (storage self))))))
         (snd (run_kmeans fit_predict (values (vectors (storage self))))) ->
  len (centroids built) <= nprobe self ->
  centroid_distances built q = Return cd ->
  Permutation (fst (candidates built cd k)) (keys (vectors (storage self))).
Proof.
  intros Hwf Hb Hlen Hrange Hn Hcd.
  rewrite (candidates_all_clusters built q cd k Hcd).
  - now apply (all_lists_perm self rep built q cd).
  - apply build_inv in Hb.
    destruct Hb as (all & cs & preds & _ & _ & _ & Hbuilt & _).
    replace (nprobe built) with (nprobe self) by (now subst built). exact Hn.
Qed.

(** C2, amended.  On an index just built over a consistent store, by a
    collaborator that returned one in-range prediction per vector, with
    [nprobe] at least the number of centroids, for a query of the
    centroids' length and a configured metric that gives the distance
    [d v] for every stored vector [v] (no NaN among the distances):
    [search] returns records of the store, as many as the brute-force
    scan does and with the same distances position by position; when no
    two stored records are at the same distance from the query, it
    returns exactly the brute-force result. *)
Theorem search_exhaustive (self : IVFIndex) rep (built : IVFIndex)
  (query_vector : vector) (k : Z) (d : vector -> float) :
  store_wf (storage self) ->
  build fit_predict self = (Return rep, built) ->
  length (snd (run_kmeans fit_predict (values (vectors (storage self)))))
    = length (vectors (storage self)) ->
  Forall (fun p => 0 <= p < len (fst (run_kmeans fit_predict
                                       (values (vectors (storage self))))))
         (snd (run_kmeans fit_predict (values (vectors (storage self))))) ->
  len (centroids built) <= nprobe self ->
  0 <= k ->
  Forall (fun c => len c = len query_vector) (centroids built) ->
  Forall (fun v => dist_func self query_vector v = Return (d v) /\ not_nan (d v))
         (values (vectors (storage self))) ->
  exists results expected,
    fst (search query_vector k built) = Return results /\
    brute_force_search query_vector k built = Return expected /\
    Forall2 (fun r e => (d (fst r) =? d (fst e))%float = true)
            results expected /\
    (exists others,
        Permutation (results ++ others) (stored_records (storage self))) /\
    ((forall r1 r2,
         In r1 (stored_records (storage self)) ->
         In r2 (stored_records (storage self)) ->
         (d (fst r1) =? d (fst r2))%float = true ->
         r1 = r2) ->
     results = expected).
Proof.
  intros Hwf Hb Hlen Hrange Hn Hk Hshape Hdist.
  pose proof (centroid_distances_aligned built query_vector Hshape) as Hcd.
  set (cd := sorted tuple_lt (centroid_table built query_vector)) in *.
  pose proof (candidates_exhaustive self rep built query_vector cd k
                Hwf Hb Hlen Hrange Hn Hcd) as Hcand.
  apply build_inv in Hb.
  destruct Hb as (all & cs & preds & Hall & _ & _ & Hbuilt & _).
  assert (Hs : storage built = storage self) by now subst built.
  assert (Hd : dist_func built = dist_func self) by now subst built.
  assert (Hbt : is_built built = true) by now subst built.
  set (key := fun o : vector * json => d (fst o)).
  set (cands := fst (candidates built cd k)) in *.
  set (s := storage self) in *.
  assert (Hrecs : Permutation (map (resolved s) cands) (stored_records s))
    by now apply Permutation_map.
  assert (Hkey : forall r, In r (stored_records s) ->
                           dist_func self query_vector (fst r) = Return (key r)
                           /\ key_ok key r).
  { intros r Hr. apply in_map_iff in Hr. destruct Hr as (id & <- & Hid).
    rewrite Forall_forall in Hdist. apply Hdist. now apply get_live. }
  assert (Hok : Forall (key_ok key) (map (resolved s) cands)).
  { apply Forall_forall. intros r Hr. apply Hkey.
    eapply Permutation_in; eauto. }
  exists (firstn (Z.to_nat k) (sorted_by key (map (resolved s) cands))),
         (firstn (Z.to_nat k) (sorted_by key (stored_records s))).
  split; [|split; [|split; [|split]]].
  - rewrite (search_built built query_vector k cd Hbt Hcd).
    rewrite Hs, Hd. fold cands. cbn [fst].
    rewrite resolve_live; [|exact Hwf|].
    + cbn [bind]. rewrite (sorted_key_total _ key).
      * cbn [bind]. now rewrite slice_to_firstn.
      * intros r Hr. apply Hkey. eapply Permutation_in; eauto.
    + intros id Hid. eapply Permutation_in; eauto.
  - unfold brute_force_search. rewrite Hs, Hd, Hall. cbn [bind].
    rewrite (get_all_records _ _ Hall).
    rewrite (sorted_key_total _ key) by (intros r Hr; now apply Hkey).
    cbn [bind]. now rewrite slice_to_firstn.
  - apply Forall2_firstn. now apply (sorted_by_perm_keys key).
  - exists (skipn (Z.to_nat k) (sorted_by key (map (resolved s) cands))).
    rewrite firstn_skipn, sorted_by_perm. exact Hrecs.
  - intros Hties. eapply Forall2_eq_In.
    + apply Forall2_firstn. apply (sorted_by_perm_keys key); eassumption.
    + intros a b Ha Hb. apply Hties.
      * apply In_firstn in Ha. eapply Permutation_in; [|exact Ha].
        rewrite sorted_by_perm. exact Hrecs.
      * apply In_firstn in Hb. eapply Permutation_in; [|exact Hb].
        apply sorted_by_perm.
Qed.

End Exhaustive.

(* ================================================================== *)
(** * A store with two equidistant records *)

(** Ten vectors in the plane, so two clusters ([10 // 10 + 1]).  Ids 0, 2,
    3, 4 lie around (1.75, -1.5) and ids 1, 5..9 around (-1, 3); every
    vector is nearer to the mean of its own group.  Records 0 and 1 are at
    the same cosine distance from the query (1, 1), and nearer to it than
    all the others. *)
Definition tied_store : VectorStorage :=
  run [CallAdd [1%float; 0%float] (JStr "a");
       CallAdd [0%float; 1%float] (JStr "b");
       CallAdd [2%float; (-2)%float] (JStr "a2");
       CallAdd [1%float; (-1)%float] (JStr "a3");
       CallAdd [3%float; (-3)%float] (JStr "a4");
       CallAdd [(-1)%float; 2%float] (JStr "b5");
       CallAdd [(-1)%float; 3%float] (JStr "b6");
       CallAdd [(-1)%float; 4%float] (JStr "b7");
       CallAdd [(-2)%float; 3%float] (JStr "b8");
       CallAdd [(-1)%float; 5%float] (JStr "b9")]
      (VectorStorage_init 2).

Definition tied_query : vector := [1%float; 1%float].

Definition tied_centroids : list vector :=
  [[1.75%float; (-1.5)%float]; [(-1)%float; 3%float]].

(** The collaborator returns the two group means and the grouping. *)
Definition tied_kmeans : Z -> Z -> list vector -> list vector * list Z :=
  fixed_kmeans tied_centroids [0; 1; 0; 0; 0; 1; 1; 1; 1; 1].

(** The same centroids with every vector assigned to cluster 0. *)
Definition lumped_kmeans : Z -> Z -> list vector -> list vector * list Z :=
  fixed_kmeans tied_centroids [0; 0; 0; 0; 0; 0; 0; 0; 0; 0].

(** [IVFIndex(tied_store)], with the default [nprobe] and metric. *)
Definition tied_index : IVFIndex :=
  {| storage := tied_store; nprobe := 10; distance_fn := "cosine";
     is_built := false; dist_func := vers;
     inverted_lists := []; assignments := []; centroids := [] |}.

(** [IVFIndex(tied_store, nprobe=1)] *)
Definition narrow_index : IVFIndex :=
  {| storage := tied_store; nprobe := 1; distance_fn := "cosine";
     is_built := false; dist_func := vers;
     inverted_lists := []; assignments := []; centroids := [] |}.

Definition built_tied : IVFIndex := snd (build tied_kmeans tied_index).
Definition built_narrow : IVFIndex := snd (build tied_kmeans narrow_index).

Lemma tied_store_wf : store_wf tied_store.
Proof. apply run_wf, init_wf. Qed.

Lemma tied_index_init :
  IVFIndex_init tied_store 10 "cosine" = Return tied_index /\
  IVFIndex_init tied_store 1 "cosine" = Return narrow_index.
Proof. split; reflexivity. Qed.

(** C2, as claimed, fails.  The index is built, [nprobe] (10) is above the
    number of clusters (2), and for [k = 1] [search] returns record "b"
    where the scan in store order returns record "a": both are at the same
    distance, and [search] meets "b" first because its cluster is the
    nearer one.  With the other collaborator the same search returns "a":
    which of two tied records is returned depends on the clustering, which
    no scan of the store knows. *)
Lemma search_exhaustive_tie :
  fst (build tied_kmeans tied_index) = Return (5%float, 6) /\
  is_built built_tied = true /\
  len (centroids built_tied) = 2 /\
  nprobe built_tied = 10 /\
  fst (search tied_query 1 built_tied) = Return [([0%float; 1%float], JStr "b")] /\
  brute_force_search tied_query 1 built_tied
    = Return [([1%float; 0%float], JStr "a")] /\
  vers tied_query [0%float; 1%float] = vers tied_query [1%float; 0%float] /\
  fst (search tied_query 1 (snd (build lumped_kmeans tied_index)))
    = Return [([1%float; 0%float], JStr "a")].
Proof. repeat split; vm_compute; reflexivity. Qed.

(** A query from which the three records of the scenario store are at
    three different cosine distances. *)
Definition untied_query : vector := [1%float; 0.5%float; 0%float].

(** On the scenario index (one cluster, [nprobe] 2) the search for the two
    records nearest to [untied_query] returns what the scan returns. *)
Lemma search_exhaustive_witness :
  exists results expected,
    fst (search untied_query 2 built_scenario) = Return results /\
    brute_force_search untied_query 2 built_scenario = Return expected /\
    Forall2 (fun r e => (cosine_distance untied_query (fst r)
                         =? cosine_distance untied_query (fst e))%float = true)
            results expected /\
    (exists others,
        Permutation (results ++ others)
                    (stored_records (storage scenario_index))) /\
    results = expected.
Proof.
  destruct (search_exhaustive scenario_kmeans scenario_index (3%float, 3)
              built_scenario untied_query 2 (cosine_distance untied_query))
    as (results & expected & Hs & Hb & Hd & Hp & He).
  - apply scenario_store_wf.
  - vm_compute. reflexivity.
  - reflexivity.
  - repeat (constructor; [unfold len; simpl; lia|]). constructor.
  - unfold len. simpl. lia.
  - lia.
  - repeat (constructor; [vm_compute; reflexivity|]). constructor.
  - repeat (constructor; [split; vm_compute; reflexivity|]). constructor.
  - exists results, expected. repeat split; try assumption.
    apply He. intros r1 r2 H1 H2 Heq.
    vm_compute in H1, H2.
    destruct H1 as [<-|[<-|[<-|[]]]], H2 as [<-|[<-|[<-|[]]]];
      try reflexivity; vm_compute in Heq; discriminate Heq.
Defined.

(** On the narrow index the nearest cluster holds six ids, fewer than
    [k = 7]: the second cluster is pulled in. *)
Lemma fallback_rule_witness :
  exists cd,
    centroid_distances built_narrow tied_query = Return cd /\
    Permutation cd
      (map (fun o => (cosine_distance (snd o) tied_query, fst o))
           (Fastcore.enumerate (centroids built_narrow))) /\
    StronglySorted (fun a b => (fst a <=? fst b)%float = true) cd /\
    search tied_query 7 built_narrow
      = (results <- mapM (fun id => get id (storage built_narrow))
                         (fst (candidates built_narrow cd 7)) ;;
         ranked <- sorted_key (fun o => dist_func built_narrow tied_query (fst o))
                              results ;;
         Return (slice_to 7 ranked),
         set_inverted_lists built_narrow (snd (candidates built_narrow cd 7))) /\
    probe_order cd
      = near_clusters built_narrow cd ++ remaining_clusters built_narrow cd /\
    len (initial_candidates built_narrow cd) < 7 /\
    exists j,
      (j <= length (remaining_clusters built_narrow cd))%nat /\
      fst (candidates built_narrow cd 7) = pulled built_narrow cd j /\
      (j = length (remaining_clusters built_narrow cd) \/
       7 * 2 <= len (pulled built_narrow cd j)) /\
      (forall j', (j' < j)%nat -> len (pulled built_narrow cd j') < 7 * 2).
Proof.
  destruct (fallback_rule built_narrow tied_query 7)
    as (cd & Hcd & Hperm & Hsorted & Hsearch & Hsplit & _ & Hfall).
  - reflexivity.
  - simpl. lia.
  - repeat (constructor; [vm_compute; reflexivity|]). constructor.
  - repeat (constructor; [vm_compute; reflexivity|]). constructor.
  - assert (Hlt : len (initial_candidates built_narrow cd) < 7).
    { pose proof Hcd as Hv. vm_compute in Hv. injection Hv as <-.
      vm_compute. reflexivity. }
    exists cd. repeat split; try assumption. exact (Hfall Hlt).
Defined.

(** The fallback at work: the nearest cluster holds six ids; for [k = 7]
    the second cluster is appended (ten candidates, fewer than 14, and no
    cluster is left); for [k = 6] it is not read. *)
Example fallback_on_narrow_index :
  exists cd,
    centroid_distances built_narrow tied_query = Return cd /\
    probe_order cd = [1; 0] /\
    initial_candidates built_narrow cd = [1; 5; 6; 7; 8; 9] /\
    fst (candidates built_narrow cd 6) = [1; 5; 6; 7; 8; 9] /\
    fst (candidates built_narrow cd 7) = [1; 5; 6; 7; 8; 9; 0; 2; 3; 4].
Proof.
  exists (sorted tuple_lt (centroid_table built_narrow tied_query)).
  repeat split; vm_compute; reflexivity.
Qed.


(* ================================================================== *)
(** * Further properties of the store and the index *)

Lemma dict_get_remove_same {V} (d : dict Z V) k :
  dict_wf d -> dict_get (dict_remove d k) k = None.
Proof.
  unfold dict_wf, keys. induction d as [|[k0 v0] d IH]; simpl; [reflexivity|].
  intros Hnd. inversion Hnd as [|? ? Hni Hnd']; subst.
  destruct (k0 =? k) eqn:E; simpl.
  - apply Z.eqb_eq in E. subst. now apply dict_get_None.
  - rewrite E. auto.
Qed.

(** X1.  [add] with a vector whose length is not the store's dimension
    raises the assertion error and stores nothing. *)
Theorem add_rejects_wrong_dimension (v : vector) (m : json) (s : VectorStorage) :
  dimension s <> len v -> add v m s = (Raise AssertionError, s).
Proof.
  intros Hd. destruct (add_cases v m s) as [[_ E]|[E _]];
    [exact E|contradiction].
Qed.

Lemma add_rejects_wrong_dimension_witness :
  add [1%float; 0%float] JNull scenario_store
  = (Raise AssertionError, scenario_store).
Proof.
  apply (add_rejects_wrong_dimension [1%float; 0%float] JNull scenario_store).
  vm_compute. discriminate.
Defined.

(** X2.  [delete] of a live id returns [True], after which [get] of that
    id raises [KeyError]; [delete] of an absent id returns [False] and
    leaves the store as it was. *)
Theorem delete_semantics (id : Z) (s : VectorStorage) :
  store_wf s ->
  (In id (keys (vectors s)) ->
   fst (delete id s) = Return true /\
   get id (snd (delete id s)) = Raise KeyError /\
   next_id (snd (delete id s)) = next_id s) /\
  (~ In id (keys (vectors s)) -> delete id s = (Return false, s)).
Proof.
  intros [Hwf Hk]. unfold delete, dict_in, pop. split.
  - intros Hin.
    destruct (dict_get (vectors s) id) as [v|] eqn:Gv;
      [|apply dict_get_None in Gv; contradiction].
    destruct (dict_get (metadatas s) id) as [m|] eqn:Gm;
      [|apply dict_get_None in Gm; rewrite Hk in Gm; contradiction].
    simpl. repeat split. unfold get, getitem. simpl.
    now rewrite dict_get_remove_same.
  - intros Hni. apply dict_get_None in Hni. now rewrite Hni.
Qed.

Lemma delete_semantics_witness :
  (In 1 (keys (vectors scenario_store)) ->
   fst (delete 1 scenario_store) = Return true /\
   get 1 (snd (delete 1 scenario_store)) = Raise KeyError /\
   next_id (snd (delete 1 scenario_store)) = next_id scenario_store) /\
  (~ In 1 (keys (vectors scenario_store)) ->
   delete 1 scenario_store = (Return false, scenario_store)).
Proof. apply (delete_semantics 1 scenario_store), scenario_store_wf. Defined.

(** X4.  Before the first successful [build], [search] raises and
    [get_stats] reports only that the index is not built. *)
Theorem unbuilt_index (self : IVFIndex) (query_vector : vector) (k : Z) :
  is_built self = false ->
  search query_vector k self
    = (Raise (ValueError "Index not built. Call build() first."), self) /\
  get_stats self = Return StatsNotBuilt.
Proof. intros Hb. unfold search, get_stats. now rewrite Hb. Qed.

Lemma unbuilt_index_witness :
  search tied_query 5 tied_index
    = (Raise (ValueError "Index not built. Call build() first."), tied_index) /\
  get_stats tied_index = Return StatsNotBuilt.
Proof. apply (unbuilt_index tied_index tied_query 5). reflexivity. Defined.

(** The scenario of the distance cells as a search: with the three
    vectors in one cluster, the two nearest records to (0.7, 0.7, 0) under
    the cosine metric are "a" and "b". *)
Example scenario_search :
  fst (search [0.7%float; 0.7%float; 0%float] 2 built_scenario)
  = Return [([1%float; 0%float; 0%float], JObj [("t", JStr "a")]);
            ([0%float; 1%float; 0%float], JObj [("t", JStr "b")])].
Proof. vm_compute. reflexivity. Qed.

(* ================================================================== *)
(** * The store: lookups after updates *)

Lemma dict_get_remove_other {V} (d : dict Z V) k k' :
  k <> k' -> dict_get (dict_remove d k) k' = dict_get d k'.
Proof.
  intros Hne. induction d as [|[k0 v0] d IH]; simpl; [reflexivity|].
  destruct (k0 =? k) eqn:E; simpl.
  - apply Z.eqb_eq in E. subst. apply Z.eqb_neq in Hne. now rewrite Hne.
  - now rewrite IH.
Qed.

Lemma keys_remove_filter {V} (d : dict Z V) k :
  dict_wf d -> keys (dict_remove d k) = filter (fun k' => negb (k' =? k)) (keys d).
Proof.
  unfold dict_wf, keys. induction d as [|[k0 v0] d IH]; simpl; [reflexivity|].
  intros Hnd. inversion Hnd as [|? ? Hni Hnd']; subst.
  destruct (k0 =? k) eqn:E; simpl.
  - apply Z.eqb_eq in E. subst. symmetry. apply forallb_filter_id.
    apply forallb_forall. intros k' Hk'. apply negb_true_iff, Z.eqb_neq.
    intros ->. contradiction.
  - f_equal. auto.
Qed.

Lemma dict_remove_incl {V} (d : dict Z V) k : incl (dict_remove d k) d.
Proof.
  induction d as [|[k0 v0] d IH]; simpl; [apply incl_refl|].
  destruct (k0 =? k).
  - apply incl_tl, incl_refl.
  - intros x [<-|Hx]; [now left|right; now apply IH].
Qed.

(** X5.  A successful [add] returns [next_id] and advances it by one;
    [get] of the returned id then gives back the vector and the metadata,
    and [get] of every other id is what it was before. *)
Theorem add_then_get (v : vector) (m : json) (s : VectorStorage) :
  dimension s = len v ->
  fst (add v m s) = Return (next_id s) /\
  get (next_id s) (snd (add v m s)) = Return (v, m) /\
  (forall id, id <> next_id s -> get id (snd (add v m s)) = get id s) /\
  next_id (snd (add v m s)) = next_id s + 1 /\
  dimension (snd (add v m s)) = dimension s.
Proof.
  intros Hd. destruct (add_cases v m s) as [[Hne _]|[_ ->]]; [contradiction|].
  simpl. unfold get, getitem. simpl. repeat split.
  - now rewrite !dict_get_set_same.
  - intros id Hid. now rewrite !dict_get_set_other by auto.
Qed.

Lemma add_then_get_witness :
  fst (add [0%float; 0%float; 1%float] JNull scenario_store)
    = Return (next_id scenario_store) /\
  get (next_id scenario_store)
      (snd (add [0%float; 0%float; 1%float] JNull scenario_store))
    = Return ([0%float; 0%float; 1%float], JNull) /\
  (forall id, id <> next_id scenario_store ->
              get id (snd (add [0%float; 0%float; 1%float] JNull scenario_store))
              = get id scenario_store) /\
  next_id (snd (add [0%float; 0%float; 1%float] JNull scenario_store))
    = next_id scenario_store + 1 /\
  dimension (snd (add [0%float; 0%float; 1%float] JNull scenario_store))
    = dimension scenario_store.
Proof.
  apply (add_then_get [0%float; 0%float; 1%float] JNull scenario_store).
  reflexivity.
Defined.

(** X6.  [add] does not look whether [next_id] is free.  When the id is
    already live (a loaded file can say so) the record under it is
    replaced and the store holds as many records as before; when it is
    not, the new record comes last. *)
Theorem add_overwrites_or_appends (v : vector) (m : json) (s : VectorStorage) :
  dimension s = len v ->
  (In (next_id s) (keys (vectors s)) ->
   keys (vectors (snd (add v m s))) = keys (vectors s) /\
   dict_get (vectors (snd (add v m s))) (next_id s) = Some v) /\
  (~ In (next_id s) (keys (vectors s)) ->
   vectors (snd (add v m s)) = vectors s ++ [(next_id s, v)]).
Proof.
  intros Hd. destruct (add_cases v m s) as [[Hne _]|[_ ->]]; [contradiction|].
  simpl. split.
  - intros Hin. split; [now apply keys_set_present|apply dict_get_set_same].
  - intros Hni. now apply keys_set_absent.
Qed.

(** A store as [load] returns it from a file whose [next_id] is an id in
    use. *)
Definition stale_counter_store : VectorStorage :=
  {| dimension := 1;
     vectors := [(0, [1%float]); (1, [2%float])];
     metadatas := [(0, JStr "x"); (1, JStr "y")];
     next_id := 1 |}.

Lemma add_overwrites_or_appends_witness :
  (In (next_id stale_counter_store) (keys (vectors stale_counter_store)) ->
   keys (vectors (snd (add [3%float] JNull stale_counter_store)))
     = keys (vectors stale_counter_store) /\
   dict_get (vectors (snd (add [3%float] JNull stale_counter_store)))
            (next_id stale_counter_store) = Some [3%float]) /\
  (~ In (next_id stale_counter_store) (keys (vectors stale_counter_store)) ->
   vectors (snd (add [3%float] JNull stale_counter_store))
   = vectors stale_counter_store ++ [(next_id stale_counter_store, [3%float])]).
Proof.
  apply (add_overwrites_or_appends [3%float] JNull stale_counter_store).
  reflexivity.
Defined.

(** X7.  On a store whose two dicts hold the same ids, [get] returns the
    stored pair for a live id and raises [KeyError] for every other id. *)
Theorem get_live_or_KeyError (id : Z) (s : VectorStorage) :
  store_wf s ->
  (In id (keys (vectors s)) ->
   exists v m, get id s = Return (v, m) /\
               In (id, v) (vectors s) /\ In (id, m) (metadatas s)) /\
  (~ In id (keys (vectors s)) -> get id s = Raise KeyError).
Proof.
  intros [Hwf Hk]. unfold get, getitem. split.
  - intros Hin.
    destruct (dict_get (vectors s) id) as [v|] eqn:Gv;
      [|apply dict_get_None in Gv; contradiction].
    destruct (dict_get (metadatas s) id) as [m|] eqn:Gm;
      [|apply dict_get_None in Gm; rewrite Hk in Gm; contradiction].
    exists v, m. simpl. repeat split; now apply dict_get_In.
  - intros Hni. apply dict_get_None in Hni. now rewrite Hni.
Qed.

Lemma get_live_or_KeyError_witness :
  (In 7 (keys (vectors scenario_store)) ->
   exists v m, get 7 scenario_store = Return (v, m) /\
               In (7, v) (vectors scenario_store) /\
               In (7, m) (metadatas scenario_store)) /\
  (~ In 7 (keys (vectors scenario_store)) -> get 7 scenario_store = Raise KeyError).
Proof. apply (get_live_or_KeyError 7 scenario_store), scenario_store_wf. Defined.

(** X8.  On such a store [get_all] does not raise: it returns one triple
    per live id, in the order the ids were inserted, and the vector and
    metadata of each triple are what [get] returns for its id. *)
Theorem get_all_lists_live_records (s : VectorStorage) :
  store_wf s ->
  exists all,
    get_all s = Return all /\
    map (fun r => fst (fst r)) all = keys (vectors s) /\
    Forall (fun r => get (fst (fst r)) s = Return (snd (fst r), snd r)) all.
Proof.
  intros Hwf. destruct (get_all_wf s Hwf) as [all Hall].
  exists all. split; [exact Hall|]. split; [now apply get_all_ids|].
  apply Forall_forall. now apply get_all_resolve.
Qed.

Lemma get_all_lists_live_records_witness :
  exists all,
    get_all example_store = Return all /\
    map (fun r => fst (fst r)) all = keys (vectors example_store) /\
    Forall (fun r => get (fst (fst r)) example_store
                     = Return (snd (fst r), snd r)) all.
Proof. apply (get_all_lists_live_records example_store), example_store_wf. Defined.

(** The walk-through of the storage notebook ends with one record left:
    two added, one deleted, saved and loaded ([len(loaded.get_all())] is
    1 there). *)
Example notebook_walkthrough :
  let s := run [CallAdd [1%float] (JObj [("title", JStr "Item 1")]);
                CallAdd [2%float] (JObj [("title", JStr "Item 2")]);
                CallDelete 1] (VectorStorage_init 1) in
  (loaded <- load "data/my_vectors.json" (save "data/my_vectors.json" s []) ;;
   all <- get_all loaded ;;
   Return (len all)) = Return 1.
Proof. reflexivity. Qed.

(** The triple [get_all] lists for a live id. *)
Definition triple_of (s : VectorStorage) (id : Z) : Z * vector * json :=
  (id, fst (resolved s id), snd (resolved s id)).

Lemma get_all_triples s :
  store_wf s -> get_all s = Return (map (triple_of s) (keys (vectors s))).
Proof.
  intros Hwf. rewrite get_all_unfold. apply mapM_total. intros id Hid.
  destruct (get_live s id Hwf Hid) as [Hg _].
  unfold record_of, triple_of. unfold get in Hg.
  destruct (getitem (vectors s) id) as [v|]; simpl in *; [|discriminate].
  destruct (getitem (metadatas s) id) as [m|]; simpl in *; [|discriminate].
  injection Hg as <-. reflexivity.
Qed.

Lemma delete_store id s :
  store_wf s ->
  snd (delete id s)
  = {| dimension := dimension s;
       vectors := dict_remove (vectors s) id;
       metadatas := dict_remove (metadatas s) id;
       next_id := next_id s |}.
Proof.
  intros [Hwf Hk]. unfold delete, dict_in, pop.
  assert (Hrm : forall V (d : dict Z V),
             dict_get d id = None -> dict_remove d id = d).
  { intros V d. induction d as [|[k0 v0] d IH]; simpl; [reflexivity|].
    destruct (k0 =? id); [discriminate|]. intros Hg. now rewrite IH. }
  destruct (dict_get (vectors s) id) as [v|] eqn:Gv; simpl.
  - destruct (dict_get (metadatas s) id) as [m|] eqn:Gm; [reflexivity|].
    apply dict_get_None in Gm. rewrite Hk in Gm.
    apply dict_get_Some_key in Gv. contradiction.
  - assert (Gm : dict_get (metadatas s) id = None).
    { apply dict_get_None. rewrite Hk. now apply dict_get_None. }
    rewrite (Hrm _ _ Gv), (Hrm _ _ Gm). now destruct s.
Qed.

(** X9.  [delete] takes exactly the record of that id out of what
    [get_all] lists; the other records stay, in their order. *)
Theorem delete_get_all (id : Z) (s : VectorStorage) all :
  store_wf s ->
  get_all s = Return all ->
  get_all (snd (delete id s))
  = Return (filter (fun r => negb (fst (fst r) =? id)) all).
Proof.
  intros Hwf Hall. rewrite (get_all_triples s Hwf) in Hall.
  injection Hall as <-.
  assert (Hwf' : store_wf (snd (delete id s))).
  { apply (step_wf s (CallDelete id)). exact Hwf. }
  rewrite (get_all_triples _ Hwf'). f_equal.
  rewrite (delete_store id s Hwf). simpl.
  rewrite keys_remove_filter by apply Hwf.
  induction (keys (vectors s)) as [|k ks IH]; simpl; [reflexivity|].
  destruct (k =? id) eqn:E; simpl; [exact IH|]. rewrite IH. f_equal.
  unfold triple_of, resolved, get, getitem. simpl.
  apply Z.eqb_neq in E. now rewrite !dict_get_remove_other by auto.
Qed.

Lemma delete_get_all_witness :
  get_all (snd (delete 1 scenario_store))
  = Return (filter (fun r => negb (fst (fst r) =? 1))
                   (map (triple_of scenario_store)
                        (keys (vectors scenario_store)))).
Proof.
  apply (delete_get_all 1 scenario_store).
  - apply scenario_store_wf.
  - reflexivity.
Defined.

(* ================================================================== *)
(** * Stores made by [add] and [delete] alone *)

(** What holds of a store of dimension [D] that started empty. *)
Record store_inv (D : Z) (s : VectorStorage) : Prop := {
  inv_dimension : dimension s = D;
  inv_wf : store_wf s;
  inv_lengths : Forall (fun v => len v = D) (values (vectors s));
  inv_ascending : StronglySorted Z.lt (keys (vectors s));
  inv_below : Forall (fun k => 0 <= k < next_id s) (keys (vectors s));
  inv_counter : 0 <= next_id s
}.

Lemma StronglySorted_snoc (l : list Z) (x : Z) :
  StronglySorted Z.lt l -> Forall (fun k => k < x) l ->
  StronglySorted Z.lt (l ++ [x]).
Proof.
  intros Hs Hl. induction Hs as [|y l Hs IH Hy]; simpl.
  - repeat constructor.
  - inversion Hl; subst. constructor; [auto|].
    apply Forall_app. split; [exact Hy|]. now repeat constructor.
Qed.

Lemma StronglySorted_filter (f : Z -> bool) (l : list Z) :
  StronglySorted Z.lt l -> StronglySorted Z.lt (filter f l).
Proof.
  induction 1 as [|y l Hs IH Hy]; simpl; [constructor|].
  destruct (f y); [|exact IH]. constructor; [exact IH|].
  apply Forall_forall. intros z Hz. apply filter_In in Hz.
  rewrite Forall_forall in Hy. now apply Hy.
Qed.

Lemma store_inv_init D : store_inv D (VectorStorage_init D).
Proof.
  split; simpl;
    [reflexivity|apply init_wf|constructor|constructor|constructor|lia].
Qed.

Lemma store_inv_step D s c : store_inv D s -> store_inv D (step s c).
Proof.
  intros [Hd Hwf Hlen Hasc Hbel Hcnt].
  assert (Hwf' : store_wf (step s c)) by now apply step_wf.
  destruct c as [v m|id]; simpl in *.
  - destruct (add_cases v m s) as [[_ E]|[Hdim E]]; rewrite E in *; simpl.
    + now split.
    + assert (Hfresh : ~ In (next_id s) (keys (vectors s))).
      { intros Hin. rewrite Forall_forall in Hbel. specialize (Hbel _ Hin). lia. }
      split; simpl; try assumption; try lia;
        rewrite keys_set_absent by assumption; unfold keys, values;
        rewrite map_app.
      * apply Forall_app. split; [exact Hlen|].
        repeat constructor. simpl. lia.
      * apply StronglySorted_snoc; [exact Hasc|].
        eapply Forall_impl; [|exact Hbel]. simpl. lia.
      * apply Forall_app. split.
        -- eapply Forall_impl; [|exact Hbel]. simpl. lia.
        -- repeat constructor; simpl; lia.
  - rewrite (delete_store id s Hwf) in *. split; simpl; try assumption.
    + apply Forall_forall. intros v Hv. apply in_map_iff in Hv.
      destruct Hv as ([k v'] & <- & Hin). apply dict_remove_incl in Hin.
      rewrite Forall_forall in Hlen. apply Hlen.
      now apply (in_map snd) in Hin.
    + rewrite keys_remove_filter by apply Hwf. now apply StronglySorted_filter.
    + rewrite keys_remove_filter by apply Hwf.
      apply Forall_forall. intros k Hk. apply filter_In in Hk.
      rewrite Forall_forall in Hbel. now apply Hbel.
Qed.

(** X10.  Whatever calls of [add] and [delete] are made on a new store of
    dimension [D]: every stored vector has length [D], the two dicts hold
    the same ids, the ids are listed in ascending order, and every live id
    is below [next_id], so that an [add] never replaces a record. *)
Theorem store_invariants (D : Z) (calls : list call) :
  store_inv D (run calls (VectorStorage_init D)).
Proof.
  unfold run. generalize (store_inv_init D).
  generalize (VectorStorage_init D) as s.
  induction calls as [|c calls IH]; intros s Hs; simpl; [exact Hs|].
  apply IH. now apply store_inv_step.
Qed.

(* ================================================================== *)
(** * A file written with the field [metadata] *)

(** The document of a store with the metadata under the name [metadata]. *)
Definition data_with_metadata_field (s : VectorStorage) : json :=
  JObj [("dimension", JInt (dimension s));
        ("next_id", JInt (next_id s));
        ("vectors",
         JObj (map (fun kv => (str (fst kv), Np.tolist (snd kv)))
                   (vectors s)));
        ("metadata",
         JObj (map (fun kv => (str (fst kv), snd kv)) (metadatas s)))].

(** A file that holds the metadata under [metadata] instead of
    [metadatas] is not loaded, whatever the store it describes: [load]
    raises [KeyError]. *)
Lemma load_rejects_metadata_field (filepath : string) (s : VectorStorage)
  (fs : filesystem) :
  load filepath (dict_set fs filepath (data_with_metadata_field s))
  = Raise KeyError.
Proof.
  unfold load. rewrite dict_get_set_same.
  unfold data_with_metadata_field. simpl.
  rewrite load_vectors. reflexivity.
Qed.

(* ================================================================== *)
(** * Filling a store ([03_headline_embeddings.ipynb]) *)

(** [emb_obj.map(lambda o: vs.add(o.vector, o.metadata))]: the records are
    added in order; the first exception ends the loop, and what was added
    before stays in the store. *)
Fixpoint add_each (records : list (vector * json)) (vs : VectorStorage)
  : outcome (list Z) * VectorStorage :=
  match records with
  | [] => (Return [], vs)
  | o :: rest =>
      match add (fst o) (snd o) vs with
      | (Raise e, vs') => (Raise e, vs')
      | (Return id, vs') =>
          match add_each rest vs' with
          | (Raise e, vs'') => (Raise e, vs'')
          | (Return ids, vs'') => (Return (id :: ids), vs'')
          end
      end
  end.

(** A row of the headline dataset. *)
Record headline_row : Type := { Headline : string; Genre : string }.

Section Ingest.

(** [gen_emb.get_embedding]: the embedding service, as a function of the
    text. *)
Variable get_embedding : string -> vector.

(** The vector and metadata of a row (the [SimpleNamespace] it returns);
    the pause between calls leaves no trace in the result. *)
Definition compute_emb (x : headline_row) : vector * json :=
  let headline := Headline x in
  let genre := Genre x in
  let vector := get_embedding headline in
  (vector, JObj [("headline", JStr headline); ("genre", JStr genre)]).

(** [df.apply(compute_emb, axis=1)], then the [add] of every result to a
    new [VectorStorage(dimension)]. *)
Definition ingest (dimension : Z) (df : list headline_row)
  : outcome (list Z) * VectorStorage :=
  add_each (map compute_emb df) (VectorStorage_init dimension).

End Ingest.

(** The ids [start], [start + 1], ... *)
Definition ids_from (start : Z) (n : nat) : list Z :=
  map (fun i => start + Z.of_nat i) (seq 0 n).

Lemma ids_from_S start n :
  ids_from start (S n) = start :: ids_from (start + 1) n.
Proof.
  unfold ids_from. simpl. f_equal; [lia|].
  rewrite <- seq_shift, map_map. apply map_ext. intros i. lia.
Qed.

Lemma add_each_fresh (records : list (vector * json)) (s : VectorStorage) :
  store_wf s ->
  Forall (fun k => k < next_id s) (keys (vectors s)) ->
  Forall (fun o => len (fst o) = dimension s) records ->
  fst (add_each records s) = Return (ids_from (next_id s) (length records)) /\
  vectors (snd (add_each records s))
    = vectors s ++ combine (ids_from (next_id s) (length records))
                           (map fst records) /\
  metadatas (snd (add_each records s))
    = metadatas s ++ combine (ids_from (next_id s) (length records))
                             (map snd records) /\
  next_id (snd (add_each records s)) = next_id s + len records /\
  dimension (snd (add_each records s)) = dimension s.
Proof.
  revert s. induction records as [|[v m] records IH]; intros s Hwf Hbel Hlen.
  - simpl. rewrite !app_nil_r. unfold len. simpl. repeat split. lia.
  - inversion Hlen as [|? ? Hv Hrest]; subst. simpl in Hv.
    assert (Hfresh : ~ In (next_id s) (keys (vectors s))).
    { intros Hin. rewrite Forall_forall in Hbel. specialize (Hbel _ Hin). lia. }
    assert (Hfresh' : ~ In (next_id s) (keys (metadatas s)))
      by now rewrite (proj2 Hwf).
    pose proof (step_wf s (CallAdd v m) Hwf) as Hwf1.
    cbn [add_each fst snd]. simpl in Hwf1.
    destruct (add_cases v m s) as [[Hne _]|[_ E]]; [congruence|].
    rewrite E in *. clear E.
    set (s1 := {| dimension := dimension s;
                  vectors := dict_set (vectors s) (next_id s) v;
                  metadatas := dict_set (metadatas s) (next_id s) m;
                  next_id := next_id s + 1 |}) in *.
    destruct (IH s1) as (Hids & Hvs & Hms & Hnid & Hdim).
    + exact Hwf1.
    + simpl. rewrite keys_set_absent by assumption. unfold keys.
      rewrite map_app. apply Forall_app. split.
      * eapply Forall_impl; [|exact Hbel]. simpl. lia.
      * repeat constructor. simpl. lia.
    + exact Hrest.
    + destruct (add_each records s1) as [[ids|e] s2]; cbn [fst snd] in *;
        [|discriminate].
      injection Hids as ->. cbn [length map fst snd].
      rewrite !ids_from_S. cbn [combine]. rewrite Hvs, Hms, Hnid, Hdim.
      subst s1. cbn [vectors metadatas next_id dimension].
      rewrite !keys_set_absent by assumption. rewrite <- !app_assoc.
      unfold len. cbn [length app]. repeat split. lia.
Qed.

(** X12.  On a store whose live ids are all below [next_id], adding
    records that all have the store's dimension returns consecutive ids
    from [next_id] on, one per record, and appends the records to the two
    dicts in the order given. *)
Theorem add_each_appends (records : list (vector * json)) (s : VectorStorage) :
  store_wf s ->
  Forall (fun k => k < next_id s) (keys (vectors s)) ->
  Forall (fun o => len (fst o) = dimension s) records ->
  fst (add_each records s) = Return (ids_from (next_id s) (length records)) /\
  vectors (snd (add_each records s))
    = vectors s ++ combine (ids_from (next_id s) (length records))
                           (map fst records) /\
  metadatas (snd (add_each records s))
    = metadatas s ++ combine (ids_from (next_id s) (length records))
                             (map snd records) /\
  next_id (snd (add_each records s)) = next_id s + len records /\
  dimension (snd (add_each records s)) = dimension s.
Proof. apply add_each_fresh. Qed.

Lemma add_each_appends_witness :
  fst (add_each [([0%float; 0%float; 1%float], JStr "d");
                 ([0%float; 1%float; 1%float], JStr "e")] scenario_store)
    = Return (ids_from (next_id scenario_store) 2) /\
  vectors (snd (add_each [([0%float; 0%float; 1%float], JStr "d");
                          ([0%float; 1%float; 1%float], JStr "e")]
                         scenario_store))
    = vectors scenario_store
      ++ combine (ids_from (next_id scenario_store) 2)
                 [[0%float; 0%float; 1%float]; [0%float; 1%float; 1%float]] /\
  metadatas (snd (add_each [([0%float; 0%float; 1%float], JStr "d");
                            ([0%float; 1%float; 1%float], JStr "e")]
                           scenario_store))
    = metadatas scenario_store
      ++ combine (ids_from (next_id scenario_store) 2) [JStr "d"; JStr "e"] /\
  next_id (snd (add_each [([0%float; 0%float; 1%float], JStr "d");
                          ([0%float; 1%float; 1%float], JStr "e")]
                         scenario_store))
    = next_id scenario_store + 2 /\
  dimension (snd (add_each [([0%float; 0%float; 1%float], JStr "d");
                            ([0%float; 1%float; 1%float], JStr "e")]
                           scenario_store))
    = dimension scenario_store.
Proof.
  apply (add_each_appends
           [([0%float; 0%float; 1%float], JStr "d");
            ([0%float; 1%float; 1%float], JStr "e")] scenario_store).
  - apply scenario_store_wf.
  - repeat constructor.
  - repeat constructor.
Defined.

(** X13.  The loop stops at the first record whose vector has the wrong
    length: it raises [AssertionError], and the store is left with the
    records before that one added (nothing is rolled back, nothing after
    it is added). *)
Theorem add_each_stops (good : list (vector * json)) (bad : vector * json)
  (rest : list (vector * json)) (s : VectorStorage) :
  Forall (fun o => len (fst o) = dimension s) good ->
  len (fst bad) <> dimension s ->
  add_each (good ++ bad :: rest) s
  = (Raise AssertionError, snd (add_each good s)).
Proof.
  revert s. induction good as [|[v m] good IH]; intros s Hgood Hbad.
  - simpl. destruct (add_cases (fst bad) (snd bad) s) as [[_ ->]|[E _]];
      [reflexivity|congruence].
  - inversion Hgood as [|? ? Hv Hrest]; subst. simpl in Hv.
    cbn [add_each app fst snd].
    destruct (add_cases v m s) as [[Hne _]|[_ E]]; [congruence|].
    rewrite E. clear E.
    set (s1 := {| dimension := dimension s;
                  vectors := dict_set (vectors s) (next_id s) v;
                  metadatas := dict_set (metadatas s) (next_id s) m;
                  next_id := next_id s + 1 |}).
    rewrite (IH s1 Hrest Hbad).
    now destruct (add_each good s1) as [[ids|e] s2].
Qed.

Lemma add_each_stops_witness :
  add_each ([([0%float; 0%float; 1%float], JStr "d")]
            ++ ([0%float], JStr "short")
            :: [([1%float; 1%float; 1%float], JStr "f")]) scenario_store
  = (Raise AssertionError,
     snd (add_each [([0%float; 0%float; 1%float], JStr "d")] scenario_store)).
Proof.
  apply (add_each_stops [([0%float; 0%float; 1%float], JStr "d")]
           ([0%float], JStr "short")
           [([1%float; 1%float; 1%float], JStr "f")] scenario_store).
  - repeat constructor.
  - unfold len. simpl. lia.
Defined.

Lemma dict_get_ids_from {V} (vs : list V) (start : Z) (i : nat) (v : V) :
  nth_error vs i = Some v ->
  dict_get (combine (ids_from start (length vs)) vs) (start + Z.of_nat i)
  = Some v.
Proof.
  revert start i. induction vs as [|w vs IH]; intros start i Hnth.
  - destruct i; discriminate.
  - cbn [length]. rewrite ids_from_S. cbn -[ids_from Z.add Z.of_nat].
    destruct i as [|i]; simpl in Hnth.
    + injection Hnth as ->.
      replace (start + Z.of_nat 0) with start by lia. now rewrite Z.eqb_refl.
    + destruct (start =? start + Z.of_nat (S i)) eqn:E;
        [apply Z.eqb_eq in E; lia|].
      replace (start + Z.of_nat (S i)) with (start + 1 + Z.of_nat i) by lia.
      now apply IH.
Qed.

(** X14.  The headline pipeline: when the embedding service returns
    vectors of the store's dimension for every headline, the rows are
    stored under their row numbers 0, 1, ..., and [get] of a row number
    returns that row's embedding with its headline and genre. *)
Theorem ingest_then_get (get_embedding : string -> vector) (D : Z)
  (df : list headline_row) :
  Forall (fun x => len (get_embedding (Headline x)) = D) df ->
  fst (ingest get_embedding D df) = Return (ids_from 0 (length df)) /\
  next_id (snd (ingest get_embedding D df)) = len df /\
  (forall i x,
      nth_error df i = Some x ->
      get (Z.of_nat i) (snd (ingest get_embedding D df))
      = Return (get_embedding (Headline x),
                JObj [("headline", JStr (Headline x));
                      ("genre", JStr (Genre x))])).
Proof.
  intros Hdim. unfold ingest.
  destruct (add_each_fresh (map (compute_emb get_embedding) df)
              (VectorStorage_init D))
    as (Hids & Hvs & Hms & Hnid & _).
  - apply init_wf.
  - constructor.
  - apply Forall_forall. intros o Ho. apply in_map_iff in Ho.
    destruct Ho as (x & <- & Hx). rewrite Forall_forall in Hdim.
    simpl. now apply Hdim.
  - split; [now rewrite length_map in Hids|].
    split; [unfold len in *; rewrite length_map in Hnid; simpl in Hnid; lia|].
    intros i x Hnth. unfold get, getitem. rewrite Hvs, Hms.
    cbn [VectorStorage_init vectors metadatas next_id app].
    set (recs := map (compute_emb get_embedding) df).
    assert (Hv : nth_error (map fst recs) i = Some (get_embedding (Headline x))).
    { unfold recs. rewrite map_map. now rewrite nth_error_map, Hnth. }
    assert (Hm : nth_error (map snd recs) i
                 = Some (JObj [("headline", JStr (Headline x));
                               ("genre", JStr (Genre x))])).
    { unfold recs. rewrite map_map. now rewrite nth_error_map, Hnth. }
    apply (dict_get_ids_from _ 0) in Hv. apply (dict_get_ids_from _ 0) in Hm.
    rewrite length_map in Hv, Hm. rewrite Z.add_0_l in Hv, Hm.
    now rewrite Hv, Hm.
Qed.

(** An embedding service for examples: the text's length in every one of
    three coordinates. *)
Definition toy_embedding (text : string) : vector :=
  let x := float_of_Z (Z.of_nat (String.length text)) in [x; x; x].

Lemma ingest_then_get_witness :
  fst (ingest toy_embedding 3
         [{| Headline := "Skier Wins Gold"; Genre := "Sports" |};
          {| Headline := "City Hosts Annual Marathon"; Genre := "Local News" |}])
    = Return (ids_from 0 2) /\
  next_id (snd (ingest toy_embedding 3
         [{| Headline := "Skier Wins Gold"; Genre := "Sports" |};
          {| Headline := "City Hosts Annual Marathon"; Genre := "Local News" |}]))
    = len [{| Headline := "Skier Wins Gold"; Genre := "Sports" |};
           {| Headline := "City Hosts Annual Marathon"; Genre := "Local News" |}] /\
  (forall i x,
      nth_error [{| Headline := "Skier Wins Gold"; Genre := "Sports" |};
                 {| Headline := "City Hosts Annual Marathon";
                    Genre := "Local News" |}] i = Some x ->
      get (Z.of_nat i)
          (snd (ingest toy_embedding 3
                  [{| Headline := "Skier Wins Gold"; Genre := "Sports" |};
                   {| Headline := "City Hosts Annual Marathon";
                      Genre := "Local News" |}]))
      = Return (toy_embedding (Headline x),
                JObj [("headline", JStr (Headline x));
                      ("genre", JStr (Genre x))])).
Proof.
  apply (ingest_then_get toy_embedding 3).
  repeat constructor.
Defined.

(* ================================================================== *)
(** * Creating and building an index *)

(** X15.  [IVFIndex(storage, nprobe, distance_fn)] accepts exactly the
    metric names [cosine], [euclidean] and [dot], each giving its distance
    function, and raises [KeyError] for any other name; a new index is not
    built. *)
Theorem IVFIndex_init_metrics (s : VectorStorage) (n : Z) (name : string) :
  match IVFIndex_init s n name with
  | Return ix =>
      storage ix = s /\ nprobe ix = n /\ distance_fn ix = name /\
      is_built ix = false /\
      ((name = "cosine" /\ dist_func ix = vers) \/
       (name = "euclidean" /\ dist_func ix = euclidean) \/
       (name = "dot" /\ dist_func ix = neg_dot))
  | Raise e =>
      e = KeyError /\
      name <> "cosine" /\ name <> "euclidean" /\ name <> "dot"
  end.
Proof.
  assert (Hget : dict_get func_map name
                 = if String.eqb "cosine" name then Some vers
                   else if String.eqb "euclidean" name then Some euclidean
                   else if String.eqb "dot" name then Some neg_dot
                   else None) by reflexivity.
  unfold IVFIndex_init, getitem. rewrite Hget.
  destruct (String.eqb_spec "cosine" name) as [E|H1];
    [cbn [bind]; simpl; auto 10|].
  destruct (String.eqb_spec "euclidean" name) as [E|H2];
    [cbn [bind]; simpl; auto 10|].
  destruct (String.eqb_spec "dot" name) as [E|H3];
    [cbn [bind]; simpl; auto 10|].
  cbn [bind]. split; [reflexivity|]. repeat split; intros E; auto.
Qed.



Section BuildOutcomes.
Variable fit_predict : Z -> Z -> list vector -> list vector * list Z.




(** X18.  [add_vectors_bulk] on an index whose store is empty raises the
    empty-store error whatever vectors it is given, and changes nothing:
    an index cannot be filled through it. *)
Theorem add_vectors_bulk_empty_store (vs : list vector) (ms : list json)
  (self : IVFIndex) :
  vectors (storage self) = [] ->
  add_vectors_bulk fit_predict vs ms self
  = (Raise (ValueError "Storage is empty, cannot build index"), self).
Proof.
  intros He. unfold add_vectors_bulk. now rewrite build_empty.
Qed.

End BuildOutcomes.




(** [IVFIndex(VectorStorage(3))] *)
Definition empty_index : IVFIndex :=
  {| storage := VectorStorage_init 3; nprobe := 10; distance_fn := "cosine";
     is_built := false; dist_func := vers;
     inverted_lists := []; assignments := []; centroids := [] |}.

Lemma add_vectors_bulk_empty_store_witness :
  add_vectors_bulk scenario_kmeans [[1%float; 0%float; 0%float]] [JNull]
                   empty_index
  = (Raise (ValueError "Storage is empty, cannot build index"), empty_index).
Proof.
  apply (add_vectors_bulk_empty_store scenario_kmeans
           [[1%float; 0%float; 0%float]] [JNull] empty_index).
  reflexivity.
Defined.

(* ================================================================== *)
(** * The numbers [get_stats] reports *)

Lemma fold_add_acc (l : list Z) (a : Z) :
  fold_left Z.add l a = a + fold_left Z.add l 0.
Proof.
  revert a. induction l as [|x l IH]; intros a; simpl; [lia|].
  rewrite (IH (a + x)), (IH x). lia.
Qed.

Lemma sum_cons (x : Z) (l : list Z) : sum (x :: l) = x + sum l.
Proof. unfold sum. simpl. apply fold_add_acc. Qed.

Lemma sum_sizes (ls : list (list Z)) : sum (map len ls) = len (concat ls).
Proof.
  induction ls as [|l ls IH]; [reflexivity|].
  cbn [map concat]. rewrite sum_cons, IH. unfold len.
  rewrite length_app. lia.
Qed.

Lemma fold_min_bounds (l : list Z) (a b : Z) :
  b <= a -> Forall (fun x => b <= x) l ->
  b <= fold_left Z.min l a <= a.
Proof.
  revert a. induction l as [|x l IH]; intros a Ha Hl; simpl; [lia|].
  inversion Hl as [|? ? Hx Hl']; subst.
  pose proof (IH (Z.min a x) ltac:(lia) Hl'). lia.
Qed.

Lemma fold_max_bounds (l : list Z) (a b : Z) :
  a <= b -> Forall (fun x => x <= b) l ->
  a <= fold_left Z.max l a <= b.
Proof.
  revert a. induction l as [|x l IH]; intros a Ha Hl; simpl; [lia|].
  inversion Hl as [|? ? Hx Hl']; subst.
  pose proof (IH (Z.max a x) ltac:(lia) Hl'). lia.
Qed.

Lemma sum_bounds (l : list Z) :
  Forall (fun x => 0 <= x) l -> Forall (fun x => x <= sum l) l /\ 0 <= sum l.
Proof.
  induction 1 as [|x l Hx Hl [IH IH0]].
  - split; [constructor|reflexivity].
  - rewrite sum_cons. split; [|lia]. constructor; [lia|].
    eapply Forall_impl; [|exact IH]. simpl. lia.
Qed.

Section Stats.
Variable fit_predict : Z -> Z -> list vector -> list vector * list Z.

(** X19.  Right after a successful [build] (the clustering having
    returned a prediction for every vector), [get_stats] counts as many
    vectors as the store holds, the smallest cluster has at least one of
    them, the largest at most all of them, and the largest size is the
    one [build] printed. *)
Theorem stats_counts (self : IVFIndex) rep (self' : IVFIndex) :
  dict_wf (vectors (storage self)) ->
  build fit_predict self = (Return rep, self') ->
  (length (vectors (storage self))
   <= length (snd (run_kmeans fit_predict (values (vectors (storage self))))))%nat ->
  exists st,
    get_stats self' = Return (StatsBuilt st) /\
    n_vectors st = len (vectors (storage self)) /\
    1 <= min_cluster_size st /\
    min_cluster_size st <= max_cluster_size st /\
    max_cluster_size st <= n_vectors st /\
    max_cluster_size st = snd rep /\
    stats_nprobe st = nprobe self.
Proof.
  intros Hwf Hb Hlen.
  destruct (built_maps_partition fit_predict self rep self' Hwf Hb Hlen)
    as [_ Hun _ _ Hne]. simpl in Hun, Hne.
  apply build_inv in Hb.
  destruct Hb as (all & cs & preds & _ & _ & _ & Hself & Hrep).
  assert (Hnp : nprobe self' = nprobe self) by now subst self'.
  assert (Hbt : is_built self' = true) by now subst self'.
  clear Hself. unfold get_stats. rewrite Hbt. simpl negb. cbv iota.
  unfold build_report in Hrep.
  set (sizes := map len (values (inverted_lists self'))) in *.
  assert (Hsum : sum sizes = len (vectors (storage self))).
  { unfold sizes. rewrite sum_sizes. unfold len.
    rewrite (Permutation_length Hun). unfold keys. now rewrite length_map. }
  assert (Hpos : Forall (fun x => 1 <= x) sizes).
  { unfold sizes. apply Forall_forall. intros x Hx. apply in_map_iff in Hx.
    destruct Hx as (l & <- & Hl). rewrite Forall_forall in Hne.
    specialize (Hne l Hl). destruct l; [contradiction|].
    unfold len. simpl. lia. }
  destruct (sum_bounds sizes) as [Hle _].
  { eapply Forall_impl; [|exact Hpos]. simpl. lia. }
  destruct (truediv (sum sizes) (len sizes)) as [avg|]; [|discriminate].
  cbn [bind] in *.
  destruct sizes as [|x sizes'] eqn:Es; [discriminate|].
  cbn [py_min py_max bind] in *. injection Hrep as <-.
  inversion Hpos as [|? ? Hx Hrest]; subst.
  inversion Hle as [|? ? Hx' Hrest']; subst.
  pose proof (fold_min_bounds sizes' x 1 Hx Hrest) as Hmin.
  pose proof (fold_max_bounds sizes' x (sum (x :: sizes')) Hx' Hrest') as Hmax.
  eexists. split; [reflexivity|]. cbn.
  repeat split; first [exact Hsum | apply Hmax | assumption | lia].
Qed.

End Stats.

Lemma stats_counts_witness :
  exists st,
    get_stats built_tied = Return (StatsBuilt st) /\
    n_vectors st = len (vectors (storage tied_index)) /\
    1 <= min_cluster_size st /\
    min_cluster_size st <= max_cluster_size st /\
    max_cluster_size st <= n_vectors st /\
    max_cluster_size st = snd (5%float, 6) /\
    stats_nprobe st = nprobe tied_index.
Proof.
  apply (stats_counts tied_kmeans tied_index (5%float, 6) built_tied).
  - apply tied_store_wf.
  - vm_compute. reflexivity.
  - vm_compute. repeat constructor.
Defined.

(* ================================================================== *)
(** * What a search reads and what it leaves behind *)

Lemma extend_candidates_state k remaining start d c :
  list_of (snd (extend_candidates k remaining start d)) c = list_of d c.
Proof.
  revert start d. induction remaining as [|[dist c'] rest IH]; intros start d.
  - reflexivity.
  - simpl. destruct (defaultdict_getitem_spec d c') as [_ Hd1].
    destruct (defaultdict_getitem d c') as [l d1]. simpl in Hd1.
    destruct (len (start ++ l) >=? k * 2); simpl; [apply Hd1|].
    now rewrite IH.
Qed.

Lemma extend_candidates_ext k remaining start d d' :
  (forall c, list_of d c = list_of d' c) ->
  fst (extend_candidates k remaining start d)
  = fst (extend_candidates k remaining start d').
Proof.
  revert start d d'. induction remaining as [|[dist c] rest IH];
    intros start d d' Hd; [reflexivity|].
  simpl. destruct (defaultdict_getitem_spec d c) as [Hl Hd1].
  destruct (defaultdict_getitem_spec d' c) as [Hl' Hd1'].
  destruct (defaultdict_getitem d c) as [l d1].
  destruct (defaultdict_getitem d' c) as [l' d1']. simpl in *.
  assert (l = l') as <- by (rewrite Hl, Hl'; apply Hd).
  destruct (len (start ++ l) >=? k * 2); [reflexivity|].
  apply IH. intros c0. now rewrite Hd1, Hd1'.
Qed.

Lemma candidates_state self cd k c :
  list_of (snd (candidates self cd k)) c = list_of (inverted_lists self) c.
Proof.
  unfold candidates.
  destruct (lookup_lists_spec (inverted_lists self)
              (map snd (slice_to (nprobe self) cd))) as [_ Hd].
  destruct (lookup_lists _ _) as [lists il]. simpl in Hd.
  destruct (len (concat lists) <? k); simpl; [|apply Hd].
  now rewrite extend_candidates_state.
Qed.

Lemma candidates_ext self other cd k :
  nprobe other = nprobe self ->
  (forall c, list_of (inverted_lists other) c = list_of (inverted_lists self) c) ->
  fst (candidates other cd k) = fst (candidates self cd k).
Proof.
  intros Hn Hl. unfold candidates. rewrite Hn.
  destruct (lookup_lists_spec (inverted_lists self)
              (map snd (slice_to (nprobe self) cd))) as [Hf Hd].
  destruct (lookup_lists_spec (inverted_lists other)
              (map snd (slice_to (nprobe self) cd))) as [Hf' Hd'].
  destruct (lookup_lists (inverted_lists self) _) as [lists il].
  destruct (lookup_lists (inverted_lists other) _) as [lists' il'].
  simpl in *.
  assert (lists' = lists) as -> by (rewrite Hf, Hf'; now apply list_of_ext).
  destruct (len (concat lists) <? k); [|reflexivity].
  apply extend_candidates_ext. intros c. now rewrite Hd, Hd', Hl.
Qed.

Lemma get_raises_KeyError id s e : get id s = Raise e -> e = KeyError.
Proof.
  unfold get, getitem.
  destruct (dict_get (vectors s) id); simpl; [|now intros [= <-]].
  destruct (dict_get (metadatas s) id); simpl; [discriminate|now intros [= <-]].
Qed.

Lemma Forall2_In_r {A B} (R : A -> B -> Prop) l1 l2 y :
  Forall2 R l1 l2 -> In y l2 -> exists x, In x l1 /\ R x y.
Proof.
  induction 1 as [|a b l1 l2 Hab _ IH]; intros Hin; [destruct Hin|].
  destruct Hin as [<-|Hin].
  - exists a. split; [now left|exact Hab].
  - destruct (IH Hin) as (x & Hx & Hr). exists x. split; [now right|exact Hr].
Qed.

(** X20.  What [search] returns comes out of the inverted lists: every
    result is the record [get] returns for an id in one of the lists, and
    there are at most [k] results.  A vector added to the store after the
    last [build] is in no list, so no search finds it. *)
Theorem search_only_indexed (self : IVFIndex) (query_vector : vector) (k : Z)
  (results : list (vector * json)) :
  is_built self = true ->
  0 <= k ->
  fst (search query_vector k self) = Return results ->
  len results <= k /\
  Forall (fun r => exists id,
              In id (concat (values (inverted_lists self))) /\
              get id (storage self) = Return r)
         results.
Proof.
  intros Hb Hk Hs.
  destruct (centroid_distances self query_vector) as [cd|e] eqn:Hcd;
    [|rewrite (search_misaligned _ _ _ _ Hb Hcd) in Hs; discriminate].
  rewrite (search_built _ _ _ _ Hb Hcd) in Hs. cbn [fst] in Hs.
  destruct (mapM _ (fst (candidates self cd k))) as [recs|] eqn:Em;
    [|discriminate].
  cbn [bind] in Hs.
  destruct (sorted_key _ recs) as [ranked|] eqn:Es; [|discriminate].
  cbn [bind] in Hs. injection Hs as <-. rewrite slice_to_firstn by assumption.
  split.
  - unfold len. rewrite length_firstn. lia.
  - apply Forall_forall. intros r Hr. apply In_firstn in Hr.
    eapply Permutation_in in Hr; [|eapply sorted_key_perm, Es].
    apply mapM_Return_Forall2 in Em.
    destruct (Forall2_In_r _ _ _ r Em Hr) as (id & Hid & Hg).
    exists id. split; [|exact Hg]. eapply candidates_indexed, Hid.
Qed.

Lemma search_only_indexed_witness :
  len [([0%float; 1%float], JStr "b")] <= 1 /\
  Forall (fun r => exists id,
              In id (concat (values (inverted_lists built_tied))) /\
              get id (storage built_tied) = Return r)
         [([0%float; 1%float], JStr "b")].
Proof.
  apply (search_only_indexed built_tied tied_query 1).
  - reflexivity.
  - lia.
  - vm_compute. reflexivity.
Defined.

(** X21.  On a built index and for a query of the centroids' length (so
    that the centroid distances [cd] are computed): when a candidate id
    is no longer in the store (the record was deleted after the last
    [build]), [search] raises [KeyError]. *)
Theorem search_stale_raises (self : IVFIndex) (query_vector : vector) (k : Z)
  (cd : list (float * Z)) (id : Z) :
  is_built self = true ->
  Forall (fun c => len c = len query_vector) (centroids self) ->
  centroid_distances self query_vector = Return cd ->
  In id (fst (candidates self cd k)) ->
  ~ In id (keys (vectors (storage self))) ->
  fst (search query_vector k self) = Raise KeyError.
Proof.
  intros Hb _ Hcd Hin Hgone.
  rewrite (search_built _ _ _ _ Hb Hcd). cbn [fst].
  rewrite (mapM_raises (fun id => get id (storage self)) _ id KeyError).
  - reflexivity.
  - intros y e. apply get_raises_KeyError.
  - exact Hin.
  - unfold get, getitem. apply dict_get_None in Hgone. now rewrite Hgone.
Qed.

(** The built index after the client deleted record 1 from its store. *)
Definition stale_tied : IVFIndex :=
  set_storage built_tied (snd (delete 1 (storage built_tied))).

Lemma search_stale_raises_witness :
  fst (search tied_query 1 stale_tied) = Raise KeyError.
Proof.
  apply (search_stale_raises stale_tied tied_query 1
           (sorted tuple_lt (centroid_table stale_tied tied_query)) 1).
  - reflexivity.
  - repeat (constructor; [vm_compute; reflexivity|]). constructor.
  - vm_compute. reflexivity.
  - vm_compute. auto.
  - vm_compute. intuition discriminate.
Defined.

(** X22.  A search does not change what any later search returns, although
    it may add empty lists to the inverted lists; it leaves the store, the
    centroids and the assignments as they were. *)
Theorem search_leaves_results (self : IVFIndex) (q q' : vector) (k k' : Z) :
  fst (search q' k' (snd (search q k self))) = fst (search q' k' self) /\
  storage (snd (search q k self)) = storage self /\
  centroids (snd (search q k self)) = centroids self /\
  assignments (snd (search q k self)) = assignments self /\
  (forall c, list_of (inverted_lists (snd (search q k self))) c
             = list_of (inverted_lists self) c).
Proof.
  destruct (is_built self) eqn:Hb.
  - destruct (centroid_distances self q) as [cd|e] eqn:Hcd.
    + rewrite (search_built self q k cd Hb Hcd). cbn [snd].
      set (self1 := set_inverted_lists self (snd (candidates self cd k))).
      assert (Hl : forall c, list_of (inverted_lists self1) c
                             = list_of (inverted_lists self) c).
      { intros c. apply candidates_state. }
      split; [|now repeat split].
      assert (Hb1 : is_built self1 = true) by exact Hb.
      destruct (centroid_distances self q') as [cd'|e'] eqn:Hcd'.
      * assert (Hcd1 : centroid_distances self1 q' = Return cd') by exact Hcd'.
        rewrite (search_built self1 q' k' cd' Hb1 Hcd1).
        rewrite (search_built self q' k' cd' Hb Hcd'). cbn [fst].
        now rewrite (candidates_ext self self1 cd' k' eq_refl Hl).
      * assert (Hcd1 : centroid_distances self1 q' = Raise e') by exact Hcd'.
        rewrite (search_misaligned self1 q' k' e' Hb1 Hcd1).
        now rewrite (search_misaligned self q' k' e' Hb Hcd').
    + rewrite (search_misaligned self q k e Hb Hcd). now repeat split.
  - unfold search at 2 4 5 6 7. rewrite Hb. now repeat split.
Qed.

(** X24.  On a built index, a query whose length differs from that of a
    centroid makes [search] raise the [ValueError] of [np.dot], before any
    inverted list is read: the index is left exactly as it was. *)
Theorem search_misaligned_query (self : IVFIndex) (query_vector : vector)
  (k : Z) (c : vector) :
  is_built self = true ->
  In c (centroids self) ->
  len c <> len query_vector ->
  exists msg, search query_vector k self = (Raise (ValueError msg), self).
Proof.
  intros Hb Hc Hne.
  destruct (centroid_distances self query_vector) as [cd|e] eqn:Hcd.
  - apply centroid_distances_Return in Hcd. destruct Hcd as [Hlen _].
    rewrite Forall_forall in Hlen. now apply Hlen in Hc.
  - destruct (centroid_distances_raises _ _ _ Hcd) as (msg & ->).
    exists msg. now apply search_misaligned.
Qed.

Lemma search_misaligned_query_witness :
  exists msg,
    search [0.7%float; 0.7%float] 2 built_scenario
    = (Raise (ValueError msg), built_scenario).
Proof.
  apply (search_misaligned_query built_scenario [0.7%float; 0.7%float] 2
           [0.25%float; 0.25%float; 0%float]).
  - reflexivity.
  - simpl. auto.
  - unfold len. simpl. lia.
Defined.

(** The message is NumPy's. *)
Example search_misaligned_message :
  fst (search [0.7%float; 0.7%float] 2 built_scenario)
  = Raise (ValueError
             "shapes (3,) and (2,) not aligned: 3 (dim 0) != 2 (dim 0)").
Proof. vm_compute. reflexivity. Qed.

(* ================================================================== *)
(** * How many records a search returns *)

Lemma firstn_skipn_firstn {A} (n j : nat) (l : list A) :
  firstn n l ++ firstn j (skipn n l) = firstn (n + j) l.
Proof.
  revert l. induction n as [|n IH]; intros l; [reflexivity|].
  destruct l as [|a l]; simpl; [now destruct j|]. now rewrite IH.
Qed.

(** The candidates are the lists of a prefix of the probe order; when
    they are fewer than [k], every cluster has been read. *)
Lemma candidates_prefix self cd k :
  0 <= nprobe self ->
  exists m,
    fst (candidates self cd k)
    = concat (map (list_of (inverted_lists self)) (firstn m (probe_order cd)))
    /\ (len (fst (candidates self cd k)) < k ->
        fst (candidates self cd k)
        = concat (map (list_of (inverted_lists self)) (probe_order cd))).
Proof.
  intros Hn.
  destruct (Z_le_gt_dec k (len (initial_candidates self cd))) as [Hk|Hk].
  - rewrite (candidates_initial self cd k Hn Hk). cbn [fst].
    exists (Z.to_nat (nprobe self)). split; [reflexivity|]. lia.
  - destruct (candidates_fallback self cd k Hn) as (j & Hj & Hfst & Hstop & _);
      [lia|].
    assert (Hpre : pulled self cd j
                   = concat (map (list_of (inverted_lists self))
                               (firstn (Z.to_nat (nprobe self) + j)
                                       (probe_order cd)))).
    { unfold pulled, appended, initial_candidates, near_clusters,
        remaining_clusters.
      now rewrite <- concat_app, <- map_app, firstn_skipn_firstn. }
    exists (Z.to_nat (nprobe self) + j)%nat. rewrite Hfst.
    split; [exact Hpre|]. intros Hlt.
    destruct Hstop as [->|Hstop];
      [|rewrite Hfst in Hstop; unfold len in *; lia].
    unfold pulled, appended, initial_candidates, near_clusters.
    rewrite <- concat_app, <- map_app. f_equal. f_equal.
    rewrite firstn_all. apply firstn_skipn.
Qed.

Section FreshSearch.
Variable fit_predict : Z -> Z -> list vector -> list vector * list Z.

(** X23.  On an index just built over a consistent store by a collaborator
    that returned one in-range prediction per vector, for any
    [nprobe >= 0] and any [k >= 0], for a query of the centroids' length
    on which the configured metric gives a distance for every stored
    vector: [search] succeeds and returns [min k n] records, [n] the
    number of stored records; they are records of distinct ids of the
    store.  So the fallback always fills the result up to [k] when the
    store holds that many records. *)
Theorem search_result_count (self : IVFIndex) rep (built : IVFIndex)
  (query_vector : vector) (k : Z) :
  store_wf (storage self) ->
  build fit_predict self = (Return rep, built) ->
  length (snd (run_kmeans fit_predict (values (vectors (storage self)))))
    = length (vectors (storage self)) ->
  Forall (fun p => 0 <= p < len (fst (run_kmeans fit_predict
                                       (values (vectors (storage self))))))
         (snd (run_kmeans fit_predict (values (vectors (storage self))))) ->
  0 <= nprobe self ->
  0 <= k ->
  Forall (fun c => len c = len query_vector) (centroids built) ->
  Forall (fun v => exists d, dist_func self query_vector v = Return d)
         (values (vectors (storage self))) ->
  exists results,
    fst (search query_vector k built) = Return results /\
    len results = Z.min k (len (vectors (storage self))) /\
    exists others,
      Permutation (results ++ others) (stored_records (storage self)).
Proof.
  intros Hwf Hb Hlen Hrange Hn Hk Hshape Hdist.
  pose proof (centroid_distances_aligned built query_vector Hshape) as Hcd.
  set (cd := sorted tuple_lt (centroid_table built query_vector)) in *.
  pose proof (all_lists_perm fit_predict self rep built query_vector cd
                Hwf Hb Hlen Hrange Hcd) as Hall.
  apply build_inv in Hb.
  destruct Hb as (all & cs & preds & _ & _ & _ & Hbuilt & _).
  assert (Hs : storage built = storage self) by now subst built.
  assert (Hd : dist_func built = dist_func self) by now subst built.
  assert (Hbt : is_built built = true) by now subst built.
  assert (Hn' : 0 <= nprobe built) by now subst built.
  destruct (candidates_prefix built cd k Hn') as (m & Hpre & Hfew).
  set (cands := fst (candidates built cd k)) in *.
  set (order := probe_order cd) in *.
  set (lists := list_of (inverted_lists built)) in *.
  set (s := storage self) in *.
  assert (Hsplit : Permutation (cands ++ concat (map lists (skipn m order)))
                               (keys (vectors s))).
  { rewrite Hpre, <- concat_app, <- map_app, firstn_skipn. exact Hall. }
  assert (Hlive : incl cands (keys (vectors s))).
  { intros id Hid. eapply Permutation_in; [exact Hsplit|].
    apply in_or_app. now left. }
  destruct (sorted_key_returns
              (fun o : vector * json => dist_func self query_vector (fst o))
              (map (resolved s) cands)) as (ranked & Hranked).
  { intros r Hr. apply in_map_iff in Hr. destruct Hr as (id & <- & Hid).
    rewrite Forall_forall in Hdist. apply Hdist.
    now apply get_live; [|apply Hlive]. }
  pose proof (sorted_key_perm _ _ _ Hranked) as Hperm.
  exists (firstn (Z.to_nat k) ranked).
  split; [|split].
  - rewrite (search_built built query_vector k cd Hbt Hcd).
    rewrite Hs, Hd. fold cands. cbn [fst].
    rewrite resolve_live by assumption. cbn [bind]. rewrite Hranked.
    cbn [bind]. now rewrite slice_to_firstn.
  - unfold len at 1. rewrite length_firstn.
    rewrite (Permutation_length Hperm), length_map.
    pose proof (Permutation_length Hsplit) as Hcount.
    rewrite length_app in Hcount. unfold keys in Hcount.
    rewrite length_map in Hcount. unfold len.
    destruct (Z_lt_ge_dec (len cands) k) as [Hlt|Hge].
    + pose proof (Permutation_length Hall) as Hfull.
      rewrite <- (Hfew Hlt) in Hfull. unfold keys in Hfull.
      rewrite length_map in Hfull. unfold len in Hlt. lia.
    + unfold len in Hge. lia.
  - exists (skipn (Z.to_nat k) ranked
            ++ map (resolved s) (concat (map lists (skipn m order)))).
    rewrite app_assoc, firstn_skipn, Hperm, <- map_app.
    unfold stored_records. now apply Permutation_map.
Qed.

End FreshSearch.

Lemma search_result_count_witness :
  exists results,
    fst (search tied_query 3 built_narrow) = Return results /\
    len results = Z.min 3 (len (vectors (storage narrow_index))) /\
    exists others,
      Permutation (results ++ others) (stored_records (storage narrow_index)).
Proof.
  apply (search_result_count tied_kmeans narrow_index (5%float, 6)).
  - apply tied_store_wf.
  - vm_compute. reflexivity.
  - reflexivity.
  - vm_compute. repeat constructor; discriminate.
  - vm_compute. discriminate.
  - lia.
  - repeat (constructor; [vm_compute; reflexivity|]). constructor.
  - repeat (constructor; [eexists; reflexivity|]). constructor.
Defined.
